(** * Sparkify data-lake ETL ([etl.py]): relational model and properties

    [etl.py] is a sequence of Spark SQL queries over two JSON datasets
    (the song catalog and the event log) whose results are written as
    parquet directories.  This development embeds

    - the fragment of the engine the queries use (three-valued equality,
      DOUBLE arithmetic, the cast to TIMESTAMP, the calendar functions,
      [DISTINCT], [monotonically_increasing_id], parquet writes),
    - the three functions of the script, [process_song_data],
      [process_log_data] and [main], query by query, as transforms of
      relations that have all the columns the queries name, and
    - the same three functions on the JSON objects themselves (module
      [etl]): a relation read from files has the columns that some object
      carries, a statement that names another column raises, and what was
      written before the exception stays written,

    and proves the properties of the five output tables.

    What is modelled and what is not:
    - a dataset is the list of its rows in the order the engine reads
      them; the properties that compare two runs hold for every order, and
      the engine promises no order for the rows it writes;
    - DOUBLE is IEEE binary64, computed exactly ([SpecFloat]); rows are
      compared field by field, so [DISTINCT] tells 0.0 from -0.0;
    - calendar fields use the proleptic Gregorian calendar in the time
      zone of the session;
    - the columns of a relation read from JSON are the keys of its
      objects, a key that holds [null] included; the types that the engine
      infers for them are those of the data model and are not inferred
      here;
    - the session built by [create_spark_session] is a parameter of
      [main]; reading [dl.cfg] and the progress messages printed by the
      script are left out. *)

From Stdlib Require Import ZArith List Bool Lia Permutation.
From Stdlib Require Import SpecFloat.
From stdpp Require Import base decidable option list strings gmap.

Local Open Scope Z_scope.

(** ** IEEE binary64, the engine's DOUBLE (and Python's float) *)

Module Double.

Definition prec : Z := 53.
Definition emax : Z := 1024.

Definition double : Type := spec_float.

#[global] Instance spec_float_eq_dec : EqDecision spec_float.
Proof. solve_decision. Defined.

(** Conversion of a LONG to DOUBLE rounds to nearest, ties to even. *)
Definition of_long (z : Z) : double := binary_normalize prec emax z 0 false.

Definition div (x y : double) : double := SFdiv prec emax x y.
Definition mul (x y : double) : double := SFmul prec emax x y.
Definition eqb (x y : double) : bool := SFeqb x y.

Definition is_nan (d : double) : bool :=
  match d with S754_nan => true | _ => false end.

Definition is_infinite (d : double) : bool :=
  match d with S754_infinity _ => true | _ => false end.

Definition long_min : Z := - 2 ^ 63.
Definition long_max : Z := 2 ^ 63 - 1.

(** The JVM's conversion of a double to a long ([Double.toLong]):
    truncation toward zero, NaN to 0, saturation at both ends. *)
Definition to_long (d : double) : Z :=
  match d with
  | S754_nan => 0
  | S754_zero _ => 0
  | S754_infinity s => if s then long_min else long_max
  | S754_finite s m e =>
      let a := match e with
               | Z0 => Zpos m
               | Zpos _ => Z.shiftl (Zpos m) e
               | Zneg _ => Z.shiftr (Zpos m) (- e)
               end in
      let v := if s then - a else a in
      Z.max long_min (Z.min long_max v)
  end.

End Double.

(** ** The SQL fragment used by the queries *)

Module sql.

Import Double.

(** A column value is [None] for SQL NULL.  A field that is absent from
    a JSON record, or that cannot be read at the column's type, is NULL. *)

(** [a = b] on strings: NULL when either side is NULL, otherwise the
    byte-wise comparison of the two strings. *)
Definition eq_string (a b : option string) : option bool :=
  match a, b with
  | Some x, Some y => Some (bool_decide (x = y))
  | _, _ => None
  end.

Definition and3 (a b : option bool) : option bool :=
  match a, b with
  | Some false, _ | _, Some false => Some false
  | Some true, Some true => Some true
  | _, _ => None
  end.

(** A row passes a WHERE, a [filter] or a join condition only when the
    condition is TRUE; FALSE and NULL both reject it. *)
Definition holds (c : option bool) : bool :=
  match c with Some true => true | _ => false end.

(** [a / b] with a LONG column on the left and an integer literal on the
    right: both operands are cast to DOUBLE and divided there ([div] is the
    integral division of this dialect, [/] never is).  Division by zero
    gives NULL. *)
Definition divide (a : option Z) (b : Z) : option double :=
  match a with
  | None => None
  | Some x =>
      if bool_decide (b = 0) then None
      else Some (div (of_long x) (of_long b))
  end.

(** TIMESTAMP: microseconds since 1970-01-01T00:00:00Z. *)
Definition timestamp : Type := Z.

Definition MICROS_PER_SECOND : Z := 1000000.

(** [to_timestamp(e)] without a format is the cast of [e] to TIMESTAMP;
    a DOUBLE is read as seconds since the epoch. *)
Definition to_timestamp (e : option double) : option timestamp :=
  match e with
  | None => None
  | Some d =>
      if is_nan d || is_infinite d then None
      else Some (to_long (mul d (of_long MICROS_PER_SECOND)))
  end.

(** *** Calendar fields

    The fields are taken in the session time zone: [tz t] is the offset
    from UTC, in seconds, that the zone has at the instant [t]. *)

Section Calendar.
Variable tz : timestamp -> Z.

Definition local_seconds (t : timestamp) : Z :=
  t / MICROS_PER_SECOND + tz t.

(** Days since 1970-01-01 of the local date. *)
Definition local_days (t : timestamp) : Z := local_seconds t / 86400.

(** Proleptic Gregorian year and month of a day number. *)
Definition civil (days : Z) : Z * Z :=
  let z := days + 719468 in
  let era := z / 146097 in
  let doe := z - era * 146097 in
  let yoe := (doe - doe / 1460 + doe / 36524 - doe / 146096) / 365 in
  let doy := doe - (365 * yoe + yoe / 4 - yoe / 100) in
  let mp := (5 * doy + 2) / 153 in
  let m := if mp <? 10 then mp + 3 else mp - 9 in
  let y := yoe + era * 400 in
  (if m <=? 2 then y + 1 else y, m).

(** Day number of January 1st of year [y]. *)
Definition new_year (y : Z) : Z :=
  let y' := y - 1 in
  let era := y' / 400 in
  let yoe := y' - era * 400 in
  let doe := yoe * 365 + yoe / 4 - yoe / 100 + 306 in
  era * 146097 + doe - 719468.

Definition hour_of (t : timestamp) : Z := (local_seconds t mod 86400) / 3600.

(** 1 = Sunday, ..., 7 = Saturday. *)
Definition dayofweek_of (t : timestamp) : Z := (local_days t + 4) mod 7 + 1.

(** ISO 8601 week: the week belongs to the year of its Thursday. *)
Definition weekofyear_of (t : timestamp) : Z :=
  let d := local_days t in
  let monday_based := (d + 3) mod 7 in
  let thursday := d - monday_based + 3 in
  (thursday - new_year (fst (civil thursday))) / 7 + 1.

Definition month_of (t : timestamp) : Z := snd (civil (local_days t)).
Definition year_of (t : timestamp) : Z := fst (civil (local_days t)).

(** The SQL functions are NULL on NULL. *)
Definition hour (t : option timestamp) : option Z := hour_of <$> t.
Definition dayofweek (t : option timestamp) : option Z := dayofweek_of <$> t.
Definition weekofyear (t : option timestamp) : option Z := weekofyear_of <$> t.
Definition month (t : option timestamp) : option Z := month_of <$> t.
Definition year (t : option timestamp) : option Z := year_of <$> t.
End Calendar.

End sql.

(** ** Row-level operators of the engine *)

Module engine.

(** [SELECT DISTINCT]: one copy of every row.  Rows are compared column
    by column, two NULLs counting as equal.  The engine gives the rows of
    the result in no particular order; the list has them in the order of
    their last occurrence, which is one of the orders that can come out. *)
Definition distinct {A} `{EqDecision A} (rows : list A) : list A :=
  remove_dups rows.

(** The rows of a relation are spread over partitions.  [sizes] lists how
    many rows each partition takes, in order; what is left goes to a last
    partition. *)
Fixpoint partition_rows {A} (sizes : list nat) (rows : list A) : list (list A) :=
  match sizes with
  | [] => [rows]
  | n :: sizes' => take n rows :: partition_rows sizes' (drop n rows)
  end.

(** Two's-complement reading of a 64-bit LONG. *)
Definition wrap_long (z : Z) : Z := (z + 2 ^ 63) mod 2 ^ 64 - 2 ^ 63.

(** [monotonically_increasing_id()]: the partition index in the upper 31
    bits and the position of the row within its partition in the lower
    33 bits. *)
Definition row_id (p j : nat) : Z :=
  wrap_long (Z.shiftl (Z.of_nat p) 33 + Z.of_nat j).

Definition number_partition {A} (p : nat) (rows : list A) : list (Z * A) :=
  imap (fun j r => (row_id p j, r)) rows.

Definition monotonically_increasing_id {A} (parts : list (list A)) : list (Z * A) :=
  concat (imap number_partition parts).

End engine.

(** ** The data model of the job *)

Import Double.

(** One record of [song_data/*/*/*/*.json]. *)
Record song_json := {
  song_id : option string;
  title : option string;
  artist_id : option string;
  year : option Z;
  duration : option double;
  artist_name : option string;
  artist_location : option string;
  artist_latitude : option double;
  artist_longitude : option double
}.

(** One record of [log_data/*.json]. *)
Record log_json := {
  page : option string;
  userId : option string;
  firstName : option string;
  lastName : option string;
  gender : option string;
  level : option string;
  ts : option Z;
  sessionId : option Z;
  song : option string;
  artist : option string;
  userAgent : option string
}.

(** The five output relations; the fields are the selected columns, in the
    order of the SELECT list. *)

Module songs_tables.
Record row := {
  song_id : option string;
  title : option string;
  artist_id : option string;
  year : option Z;
  duration : option double
}.
#[global] Instance row_eq_dec : EqDecision row.
Proof. solve_decision. Defined.
End songs_tables.

Module artists_tables.
Record row := {
  artist_id : option string;
  artist_name : option string;
  artist_location : option string;
  artist_latitude : option double;
  artist_longitude : option double
}.
#[global] Instance row_eq_dec : EqDecision row.
Proof. solve_decision. Defined.
End artists_tables.

Module users_tables.
Record row := {
  userId : option string;
  firstName : option string;
  lastName : option string;
  gender : option string;
  level : option string
}.
#[global] Instance row_eq_dec : EqDecision row.
Proof. solve_decision. Defined.
End users_tables.

Module time_tables.
Record row := {
  start_time : option sql.timestamp;
  hour : option Z;
  day : option Z;
  week : option Z;
  month : option Z;
  year : option Z;
  weekday : option Z
}.
#[global] Instance row_eq_dec : EqDecision row.
Proof. solve_decision. Defined.
End time_tables.

Module songplays_tables.
Record row := {
  songplay_id : Z;
  start_time : option sql.timestamp;
  userId : option string;
  level : option string;
  song_id : option string;
  artist_id : option string;
  sessionId : option Z;
  artist_location : option string;
  userAgent : option string
}.
#[global] Instance row_eq_dec : EqDecision row.
Proof. solve_decision. Defined.
End songplays_tables.

Inductive table :=
  | songs_rows (rows : list songs_tables.row)
  | artists_rows (rows : list artists_tables.row)
  | users_rows (rows : list users_tables.row)
  | time_rows (rows : list time_tables.row)
  | songplays_rows (rows : list songplays_tables.row).

(** ** Storage and parquet writes *)

Inductive save_mode := overwrite | append | ignore | errorifexists.

#[global] Instance save_mode_eq_dec : EqDecision save_mode.
Proof. solve_decision. Defined.

(** A call [df.write.partitionBy(cols).parquet(path, mode=m)]. *)
Record write_call := {
  path : string;
  mode : save_mode;
  partitionBy : list string;
  data : table
}.

(** What a parquet directory holds: the partition columns of its layout
    and its rows. *)
Record dataset := {
  partition_columns : list string;
  contents : table
}.

(** The storage backend: the JSON records found under a glob pattern, the
    parquet directories, and the write calls made so far (oldest first). *)
Record storage := {
  song_files : string -> list song_json;
  log_files : string -> list log_json;
  parquet : gmap string dataset;
  write_log : list write_call
}.

Definition table_append (old new : table) : option table :=
  match old, new with
  | songs_rows a, songs_rows b => Some (songs_rows (a ++ b))
  | artists_rows a, artists_rows b => Some (artists_rows (a ++ b))
  | users_rows a, users_rows b => Some (users_rows (a ++ b))
  | time_rows a, time_rows b => Some (time_rows (a ++ b))
  | songplays_rows a, songplays_rows b => Some (songplays_rows (a ++ b))
  | _, _ => None
  end.

Definition put (w : write_call) (d : dataset) (st : storage) : storage :=
  {| song_files := song_files st;
     log_files := log_files st;
     parquet := <[path w := d]> (parquet st);
     write_log := write_log st ++ [w] |}.

Definition logged (w : write_call) (st : storage) : storage :=
  {| song_files := song_files st;
     log_files := log_files st;
     parquet := parquet st;
     write_log := write_log st ++ [w] |}.

(** The effect of a write; [None] when the call raises. *)
Definition write_parquet (w : write_call) (st : storage) : option storage :=
  let fresh := {| partition_columns := partitionBy w; contents := data w |} in
  match parquet st !! path w, mode w with
  | None, _ => Some (put w fresh st)
  | Some _, overwrite => Some (put w fresh st)
  | Some _, ignore => Some (logged w st)
  | Some _, errorifexists => None
  | Some old, append =>
      t ← table_append (contents old) (data w);
      Some (put w {| partition_columns := partition_columns old; contents := t |} st)
  end.

(** [spark.read.json(pattern)], as the relation that it gives when the read
    and the queries on it go through.  When they raise instead is the
    matter of [etl] below. *)
Definition read_song_json (st : storage) (pattern : string) : list song_json :=
  song_files st pattern.
Definition read_log_json (st : storage) (pattern : string) : list log_json :=
  log_files st pattern.

(** The session: its time zone and the way the engine lays the output of
    the join out over partitions in this run.  The layout is the engine's
    choice and need not be the same in the next run: two runs that are
    compared are given a session each. *)
Record SparkSession := {
  time_zone : sql.timestamp -> Z;
  join_partitions : list nat
}.

(** ** [process_song_data] *)

(** [SELECT DISTINCT song_id, title, artist_id, year, duration FROM songs] *)
Definition select_songs (s : song_json) : songs_tables.row :=
  {| songs_tables.song_id := song_id s;
     songs_tables.title := title s;
     songs_tables.artist_id := artist_id s;
     songs_tables.year := year s;
     songs_tables.duration := duration s |}.

Definition songs_query (songs : list song_json) : list songs_tables.row :=
  engine.distinct (select_songs <$> songs).

(** [SELECT DISTINCT artist_id, artist_name, artist_location,
    artist_latitude, artist_longitude FROM songs] *)
Definition select_artists (s : song_json) : artists_tables.row :=
  {| artists_tables.artist_id := artist_id s;
     artists_tables.artist_name := artist_name s;
     artists_tables.artist_location := artist_location s;
     artists_tables.artist_latitude := artist_latitude s;
     artists_tables.artist_longitude := artist_longitude s |}.

Definition artists_query (songs : list song_json) : list artists_tables.row :=
  engine.distinct (select_artists <$> songs).

Definition process_song_data (spark : SparkSession) (input_data output_data : string)
    (st : storage) : option storage :=
  let song_data := input_data +:+ "song_data/*/*/*/*.json" in
  let df := read_song_json st song_data in
  let songs_table := songs_query df in
  st ← write_parquet {| path := output_data +:+ "songs_tables/";
                        mode := overwrite;
                        partitionBy := ["year"; "artist_id"];
                        data := songs_rows songs_table |} st;
  let artists_table := artists_query df in
  write_parquet {| path := output_data +:+ "artists_tables/";
                   mode := overwrite;
                   partitionBy := [];
                   data := artists_rows artists_table |} st.

(** ** [process_log_data] *)

(** [df.filter(df.page == 'NextSong')] *)
Definition is_NextSong (l : log_json) : bool :=
  sql.holds (sql.eq_string (page l) (Some "NextSong")).

Definition filter_NextSong (df : list log_json) : list log_json :=
  filter (fun l => is_NextSong l) df.

(** [SELECT DISTINCT userId, firstName, lastName, gender, level FROM log] *)
Definition select_users (l : log_json) : users_tables.row :=
  {| users_tables.userId := userId l;
     users_tables.firstName := firstName l;
     users_tables.lastName := lastName l;
     users_tables.gender := gender l;
     users_tables.level := level l |}.

Definition users_query (log : list log_json) : list users_tables.row :=
  engine.distinct (select_users <$> log).

(** [to_timestamp(ts/1000)] *)
Definition start_time_of (l : log_json) : option sql.timestamp :=
  sql.to_timestamp (sql.divide (ts l) 1000).

(** The outer SELECT of the time query, over a row of the subquery [T]. *)
Definition select_time (tz : sql.timestamp -> Z) (start_time : option sql.timestamp)
    : time_tables.row :=
  {| time_tables.start_time := start_time;
     time_tables.hour := sql.hour tz start_time;
     time_tables.day := sql.dayofweek tz start_time;
     time_tables.week := sql.weekofyear tz start_time;
     time_tables.month := sql.month tz start_time;
     time_tables.year := sql.year tz start_time;
     time_tables.weekday := sql.dayofweek tz start_time |}.

(** [SELECT ... FROM (SELECT to_timestamp(ts/1000) as start_time FROM log) T
    WHERE start_time IS NOT NULL] *)
Definition time_query (spark : SparkSession) (log : list log_json) : list time_tables.row :=
  let T := start_time_of <$> log in
  select_time (time_zone spark) <$> filter (fun start_time => is_Some start_time) T.

(** [ON (log.song = song.title) AND (log.artist = song.artist_name)] *)
Definition join_on (l : log_json) (s : song_json) : bool :=
  sql.holds (sql.and3 (sql.eq_string (song l) (title s))
                      (sql.eq_string (artist l) (artist_name s))).

(** [log JOIN song ON ...]: the pairs that satisfy the condition. *)
Definition join (log : list log_json) (songs : list song_json) : list (log_json * song_json) :=
  l ← log; s ← filter (fun s => join_on l s) songs; [(l, s)].

(** The SELECT list of the fact query, for a joined pair numbered [id]. *)
Definition select_songplays (r : Z * (log_json * song_json)) : songplays_tables.row :=
  let '(id, (l, s)) := r in
  {| songplays_tables.songplay_id := id;
     songplays_tables.start_time := start_time_of l;
     songplays_tables.userId := userId l;
     songplays_tables.level := level l;
     songplays_tables.song_id := song_id s;
     songplays_tables.artist_id := artist_id s;
     songplays_tables.sessionId := sessionId l;
     songplays_tables.artist_location := artist_location s;
     songplays_tables.userAgent := userAgent l |}.

Definition songplays_query (spark : SparkSession) (log : list log_json)
    (songs : list song_json) : list songplays_tables.row :=
  let joined := engine.partition_rows (join_partitions spark) (join log songs) in
  engine.distinct (select_songplays <$> engine.monotonically_increasing_id joined).

Definition process_log_data (spark : SparkSession) (input_data output_data : string)
    (st : storage) : option storage :=
  let log_data := input_data +:+ "log_data/*.json" in
  let df := read_log_json st log_data in
  let df := filter_NextSong df in
  let users_table := users_query df in
  st ← write_parquet {| path := output_data +:+ "users_tables/";
                        mode := overwrite;
                        partitionBy := [];
                        data := users_rows users_table |} st;
  let time_table := time_query spark df in
  st ← write_parquet {| path := output_data +:+ "time_tables/";
                        mode := overwrite;
                        partitionBy := [];
                        data := time_rows time_table |} st;
  let song_df := read_song_json st (input_data +:+ "song_data/*/*/*/*.json") in
  let songplays_table := songplays_query spark df song_df in
  write_parquet {| path := output_data +:+ "songplays_tables/";
                   mode := overwrite;
                   partitionBy := [];
                   data := songplays_rows songplays_table |} st.

(** ** [main] *)

(** The Python values [main] may be called with. *)
Inductive pyval :=
  | PyNone
  | PyBool (b : bool)
  | PyInt (z : Z)
  | PyFloat (d : double)
  | PyStr (s : string).

(** Python's [bool] is an [int]: [True] is 1 and [False] is 0. *)
Definition py_int (v : pyval) : option Z :=
  match v with
  | PyBool b => Some (if b then 1 else 0)
  | PyInt z => Some z
  | _ => None
  end.

(** The integer a float is exactly equal to, if any. *)
Definition integral_value (d : double) : option Z :=
  match d with
  | S754_zero _ => Some 0
  | S754_finite s m e =>
      let sign := if s then Z.opp else id in
      match e with
      | Z0 => Some (sign (Zpos m))
      | Zpos _ => Some (sign (Z.shiftl (Zpos m) e))
      | Zneg _ =>
          if bool_decide (Z.land (Zpos m) (Z.ones (- e)) = 0)
          then Some (sign (Z.shiftr (Zpos m) (- e)))
          else None
      end
  | _ => None
  end.

(** [a == b]: numbers are compared by value across [bool], [int] and
    [float]; a string equals only an equal string; [None] only [None]. *)
Definition py_eq (a b : pyval) : bool :=
  match a, b with
  | PyNone, PyNone => true
  | PyStr x, PyStr y => bool_decide (x = y)
  | PyFloat x, PyFloat y => Double.eqb x y
  | PyFloat x, _ =>
      match integral_value x, py_int b with
      | Some i, Some j => bool_decide (i = j)
      | _, _ => false
      end
  | _, PyFloat y =>
      match py_int a, integral_value y with
      | Some i, Some j => bool_decide (i = j)
      | _, _ => false
      end
  | _, _ =>
      match py_int a, py_int b with
      | Some i, Some j => bool_decide (i = j)
      | _, _ => false
      end
  end.

(** Truth value of an object, as [if x:] tests it. *)
Definition py_truthy (v : pyval) : bool :=
  match v with
  | PyNone => false
  | PyBool b => b
  | PyInt z => negb (bool_decide (z = 0))
  | PyFloat d => negb (Double.eqb d (S754_zero false))
  | PyStr s => negb (bool_decide (s = EmptyString))
  end.

Definition locations (local_data : pyval) : string * string :=
  if py_eq local_data (PyBool true)
  then ("data/", "sparkify_data_lake/")
  else ("s3a://udacity-dend/", "s3a://udacity-dend/sparkify_data_lake/").

(** [spark] is the session that [create_spark_session()] returns. *)
Definition main (spark : SparkSession) (local_data : pyval) (st : storage) : option storage :=
  let '(input_data, output_data) := locations local_data in
  st ← process_song_data spark input_data output_data st;
  process_log_data spark input_data output_data st.

(** ** The script on JSON files

    The transforms above work on relations whose columns are all there.
    What [spark.read.json] infers is the union of the keys that the
    objects carry, and a query or a column reference that names a column
    outside that schema raises before the statement has any effect.  This
    part puts the two together: the script on the JSON objects themselves,
    with the exceptions that end it early. *)

(** A field of a JSON object: the key is missing, holds [null], or holds a
    value. *)
Inductive field (A : Type) :=
  | absent
  | null
  | value (a : A).
Arguments absent {A}.
Arguments null {A}.
Arguments value {A} a.

(** The column value that a field gives: NULL unless it holds a value. *)
Definition column_value {A} (f : field A) : option A :=
  match f with
  | value a => Some a
  | _ => None
  end.

Definition has_key {A} (f : field A) : bool :=
  match f with
  | absent => false
  | _ => true
  end.

(** One object of [song_data/*/*/*/*.json]. *)
Module song_object.
Record t := {
  song_id : field string;
  title : field string;
  artist_id : field string;
  year : field Z;
  duration : field double;
  artist_name : field string;
  artist_location : field string;
  artist_latitude : field double;
  artist_longitude : field double
}.
End song_object.

(** One object of [log_data/*.json]. *)
Module log_object.
Record t := {
  page : field string;
  userId : field string;
  firstName : field string;
  lastName : field string;
  gender : field string;
  level : field string;
  ts : field Z;
  sessionId : field Z;
  song : field string;
  artist : field string;
  userAgent : field string
}.
End log_object.

(** The JSON objects found under a glob pattern. *)
Record json_files := {
  song_objects : string -> list song_object.t;
  log_objects : string -> list log_object.t
}.

(** The names among [fields] whose key the object carries. *)
Definition keys_of (fields : list (string * bool)) : list string :=
  fst <$> filter (fun kv => Is_true (snd kv)) fields.

Definition song_keys (o : song_object.t) : list string :=
  keys_of
    [ ("song_id", has_key (song_object.song_id o));
      ("title", has_key (song_object.title o));
      ("artist_id", has_key (song_object.artist_id o));
      ("year", has_key (song_object.year o));
      ("duration", has_key (song_object.duration o));
      ("artist_name", has_key (song_object.artist_name o));
      ("artist_location", has_key (song_object.artist_location o));
      ("artist_latitude", has_key (song_object.artist_latitude o));
      ("artist_longitude", has_key (song_object.artist_longitude o)) ].

Definition log_keys (o : log_object.t) : list string :=
  keys_of
    [ ("page", has_key (log_object.page o));
      ("userId", has_key (log_object.userId o));
      ("firstName", has_key (log_object.firstName o));
      ("lastName", has_key (log_object.lastName o));
      ("gender", has_key (log_object.gender o));
      ("level", has_key (log_object.level o));
      ("ts", has_key (log_object.ts o));
      ("sessionId", has_key (log_object.sessionId o));
      ("song", has_key (log_object.song o));
      ("artist", has_key (log_object.artist o));
      ("userAgent", has_key (log_object.userAgent o)) ].

(** The schema that [spark.read.json] infers: every key that some object
    carries.  No object, no column. *)
Definition song_schema (objects : list song_object.t) : list string :=
  objects ≫= song_keys.

Definition log_schema (objects : list log_object.t) : list string :=
  objects ≫= log_keys.

(** The row that an object gives in the relation read from the files. *)
Definition song_row (o : song_object.t) : song_json :=
  {| song_id := column_value (song_object.song_id o);
     title := column_value (song_object.title o);
     artist_id := column_value (song_object.artist_id o);
     year := column_value (song_object.year o);
     duration := column_value (song_object.duration o);
     artist_name := column_value (song_object.artist_name o);
     artist_location := column_value (song_object.artist_location o);
     artist_latitude := column_value (song_object.artist_latitude o);
     artist_longitude := column_value (song_object.artist_longitude o) |}.

Definition log_row (o : log_object.t) : log_json :=
  {| page := column_value (log_object.page o);
     userId := column_value (log_object.userId o);
     firstName := column_value (log_object.firstName o);
     lastName := column_value (log_object.lastName o);
     gender := column_value (log_object.gender o);
     level := column_value (log_object.level o);
     ts := column_value (log_object.ts o);
     sessionId := column_value (log_object.sessionId o);
     song := column_value (log_object.song o);
     artist := column_value (log_object.artist o);
     userAgent := column_value (log_object.userAgent o) |}.

(** Every column that a statement names is in the schema. *)
Definition resolves (schema : list string) (names : list string) : bool :=
  forallb (fun name => bool_decide (name ∈ schema)) names.

(** The storage with the relations read from the files in place of its
    own. *)
Definition mount (fs : json_files) (st : storage) : storage :=
  {| song_files := fun pattern => song_row <$> song_objects fs pattern;
     log_files := fun pattern => log_row <$> log_objects fs pattern;
     parquet := parquet st;
     write_log := write_log st |}.

(** How a call ends: it returns, or an exception leaves it; either way
    with the storage as the statements executed so far have left it. *)
Inductive outcome :=
  | returned (st : storage)
  | raised (st : storage).

Module etl.

(** A statement that names columns: it raises when one of them does not
    resolve, and the script goes on otherwise. *)
Definition analysed (ok : bool) (st : storage) (rest : outcome) : outcome :=
  if ok then rest else raised st.

(** A parquet write, and the statements after it. *)
Definition written (w : write_call) (st : storage) (rest : storage -> outcome)
    : outcome :=
  match write_parquet w st with
  | Some st' => rest st'
  | None => raised st
  end.

Definition process_song_data (spark : SparkSession) (input_data output_data : string)
    (fs : json_files) (st : storage) : outcome :=
  let st := mount fs st in
  let song_data := input_data +:+ "song_data/*/*/*/*.json" in
  let schema := song_schema (song_objects fs song_data) in
  let df := read_song_json st song_data in
  analysed (resolves schema ["song_id"; "title"; "artist_id"; "year"; "duration"]) st
  (let songs_table := songs_query df in
   written {| path := output_data +:+ "songs_tables/";
              mode := overwrite;
              partitionBy := ["year"; "artist_id"];
              data := songs_rows songs_table |} st (fun st =>
   analysed (resolves schema ["artist_id"; "artist_name"; "artist_location";
                              "artist_latitude"; "artist_longitude"]) st
   (let artists_table := artists_query df in
    written {| path := output_data +:+ "artists_tables/";
               mode := overwrite;
               partitionBy := [];
               data := artists_rows artists_table |} st returned))).

Definition process_log_data (spark : SparkSession) (input_data output_data : string)
    (fs : json_files) (st : storage) : outcome :=
  let st := mount fs st in
  let log_data := input_data +:+ "log_data/*.json" in
  let schema := log_schema (log_objects fs log_data) in
  let df := read_log_json st log_data in
  analysed (resolves schema ["page"]) st
  (let df := filter_NextSong df in
   analysed (resolves schema ["userId"; "firstName"; "lastName"; "gender"; "level"]) st
   (let users_table := users_query df in
    written {| path := output_data +:+ "users_tables/";
               mode := overwrite;
               partitionBy := [];
               data := users_rows users_table |} st (fun st =>
    analysed (resolves schema ["ts"]) st
    (let time_table := time_query spark df in
     written {| path := output_data +:+ "time_tables/";
                mode := overwrite;
                partitionBy := [];
                data := time_rows time_table |} st (fun st =>
     let song_data := input_data +:+ "song_data/*/*/*/*.json" in
     let song_schema := song_schema (song_objects fs song_data) in
     let song_df := read_song_json st song_data in
     analysed (resolves schema ["ts"; "userId"; "level"; "sessionId"; "userAgent";
                                "song"; "artist"]
               && resolves song_schema ["song_id"; "artist_id"; "artist_location";
                                        "title"; "artist_name"]) st
     (let songplays_table := songplays_query spark df song_df in
      written {| path := output_data +:+ "songplays_tables/";
                 mode := overwrite;
                 partitionBy := [];
                 data := songplays_rows songplays_table |} st returned)))))).

Definition main (spark : SparkSession) (local_data : pyval) (fs : json_files)
    (st : storage) : outcome :=
  let '(input_data, output_data) := locations local_data in
  match process_song_data spark input_data output_data fs st with
  | returned st => process_log_data spark input_data output_data fs st
  | raised st => raised st
  end.

End etl.

(** * Vocabulary of the statements *)

(** ** Exactly representable numbers *)

(** The mantissa [p] followed by [k] zero bits. *)
Definition shifted (p : positive) (k : nat) : positive := Nat.iter k xO p.

(** The binary64 number of value [± p], for [p] of at most 53 bits: the
    mantissa is [p] shifted up to 53 bits. *)
Definition exact (s : bool) (p : positive) : double :=
  S754_finite s (shifted p (Z.to_nat (53 - Zpos (digits2_pos p))))
                (Zpos (digits2_pos p) - 53).

(** ** Tables, inputs and runs *)

(** The engine's stated capacity: at most 2^31 partitions, each of fewer
    than 2^33 rows. *)
Definition within_id_capacity {A} (parts : list (list A)) : Prop :=
  Z.of_nat (length parts) <= 2 ^ 31
  ∧ Forall (fun rows => Z.of_nat (length rows) < 2 ^ 33) parts.

(** The rows found at a parquet path. *)
Definition table_at (st : storage) (p : string) : option table :=
  contents <$> parquet st !! p.

(** The partition columns of the directory at a parquet path. *)
Definition layout_at (st : storage) (p : string) : option (list string) :=
  partition_columns <$> parquet st !! p.

(** The storage with the events that fail [keep] deleted from every log
    file; everything else is as in [st]. *)
Definition restrict_log (keep : log_json → Prop) `{!∀ e, Decision (keep e)}
    (st : storage) : storage :=
  {| song_files := song_files st;
     log_files := fun pattern => filter keep (log_files st pattern);
     parquet := parquet st;
     write_log := write_log st |}.

(** Some catalog row carries the (title, artist name) pair of the event. *)
Definition has_catalog_match (catalog : list song_json) (e : log_json) : Prop :=
  Exists (fun c => (song e, artist e) = (title c, artist_name c)) catalog.

#[global] Instance has_catalog_match_dec catalog e : Decision (has_catalog_match catalog e).
Proof. unfold has_catalog_match. apply _. Defined.

Definition local_locations : string * string := ("data/", "sparkify_data_lake/").
Definition remote_locations : string * string :=
  ("s3a://udacity-dend/", "s3a://udacity-dend/sparkify_data_lake/").

(** The two transforms, run one after the other on a pair of locations. *)
Definition run_on (spark : SparkSession) (loc : string * string) (st : storage)
    : option storage :=
  st ← process_song_data spark loc.1 loc.2 st;
  process_log_data spark loc.1 loc.2 st.

(** What a write call says about where and how, leaving the rows out. *)
Definition target (w : write_call) : string * save_mode * list string :=
  (path w, mode w, partitionBy w).

(** The rows of the example scenario, as read from a catalog object that
    carries [artist_location] with [null] and from the event object (see
    [catalog_S1_object] for the object without that key). *)
Definition catalog_S1 : song_json :=
  {| song_id := Some "S1"; title := Some "Song A"; artist_id := Some "E1";
     year := Some 2000; duration := Some (of_long 200);
     artist_name := Some "Band A"; artist_location := None;
     artist_latitude := Some (of_long 1); artist_longitude := Some (of_long 1) |}.

Definition event_7 : log_json :=
  {| page := Some "NextSong"; userId := Some "7"; firstName := Some "Jo";
     lastName := Some "Do"; gender := Some "F"; level := Some "free";
     ts := Some 1541440000000; sessionId := Some 1; song := Some "Song A";
     artist := Some "Band A"; userAgent := Some "UA" |}.

(** The same event, 123 milliseconds later. *)
Definition event_7_later : log_json :=
  {| page := Some "NextSong"; userId := Some "7"; firstName := Some "Jo";
     lastName := Some "Do"; gender := Some "F"; level := Some "free";
     ts := Some 1541440000123; sessionId := Some 1; song := Some "Song A";
     artist := Some "Band A"; userAgent := Some "UA" |}.

(** A storage with the given records under the local input directory and
    nothing written yet. *)
Definition local_storage (songs : list song_json) (log : list log_json) : storage :=
  {| song_files := fun pattern =>
       if bool_decide (pattern = "data/song_data/*/*/*/*.json") then songs else [];
     log_files := fun pattern =>
       if bool_decide (pattern = "data/log_data/*.json") then log else [];
     parquet := ∅;
     write_log := [] |}.

(** A session in UTC whose join output is one partition, and one whose
    join output starts in a second partition. *)
Definition session_utc : SparkSession :=
  {| time_zone := fun _ => 0; join_partitions := [] |}.

Definition session_utc_two_partitions : SparkSession :=
  {| time_zone := fun _ => 0; join_partitions := [0%nat] |}.

(** The columns of a fact row other than the generated identifier. *)
Definition without_id (r : songplays_tables.row) :=
  (songplays_tables.start_time r, songplays_tables.userId r,
   songplays_tables.level r, songplays_tables.song_id r,
   songplays_tables.artist_id r, songplays_tables.sessionId r,
   songplays_tables.artist_location r, songplays_tables.userAgent r).

(** The same columns, selected from a joined pair. *)
Definition fact_columns (p : log_json * song_json) :=
  (start_time_of p.1, userId p.1, level p.1, song_id p.2, artist_id p.2,
   sessionId p.1, artist_location p.2, userAgent p.1).

(** How many catalog rows the event joins with. *)
Definition matches (catalog : list song_json) (e : log_json) : nat :=
  length (filter (fun c => join_on e c) catalog).

(** Two storages hold the same input when every file pattern yields the
    same records, in whatever order the engine reads them. *)
Definition same_input (st1 st2 : storage) : Prop :=
  ∀ pattern, song_files st1 pattern ≡ₚ song_files st2 pattern
             ∧ log_files st1 pattern ≡ₚ log_files st2 pattern.

(** Equal rows: the same rows the same number of times; for the fact
    table, the same rows once the identifier column is projected away. *)
Definition same_rows (t1 t2 : table) : Prop :=
  match t1, t2 with
  | songs_rows a, songs_rows b => a ≡ₚ b
  | artists_rows a, artists_rows b => a ≡ₚ b
  | users_rows a, users_rows b => a ≡ₚ b
  | time_rows a, time_rows b => a ≡ₚ b
  | songplays_rows a, songplays_rows b =>
      ∀ d, d ∈ without_id <$> a ↔ d ∈ without_id <$> b
  | _, _ => False
  end.

Definition same_table (r1 r2 : storage) (p : string) : Prop :=
  ∃ t1 t2, table_at r1 p = Some t1 ∧ table_at r2 p = Some t2 ∧ same_rows t1 t2.

(** The join of this run stays within the capacity of the identifier. *)
Definition run_within_id_capacity (spark : SparkSession) (input_data : string)
    (st : storage) : Prop :=
  within_id_capacity
    (engine.partition_rows (join_partitions spark)
       (join (filter_NextSong (read_log_json st (input_data +:+ "log_data/*.json")))
             (read_song_json st (input_data +:+ "song_data/*/*/*/*.json")))).

(** ** Vocabulary of the further properties *)

(** The five parquet directories of a run with the given output root. *)
Definition output_tables (output_data : string) : list string :=
  [ output_data +:+ "songs_tables/"; output_data +:+ "artists_tables/";
    output_data +:+ "users_tables/"; output_data +:+ "time_tables/";
    output_data +:+ "songplays_tables/" ].


(** The storage with the catalog records that fail [keep] deleted from
    every song file; everything else is as in [st]. *)
Definition restrict_songs (keep : song_json → Prop) `{!∀ c, Decision (keep c)}
    (st : storage) : storage :=
  {| song_files := fun pattern => filter keep (song_files st pattern);
     log_files := log_files st;
     parquet := parquet st;
     write_log := write_log st |}.

(** The event names a song and an artist; the catalog record has a title
    and an artist name. *)
Definition has_join_keys (e : log_json) : Prop :=
  is_Some (song e) ∧ is_Some (artist e).

Definition has_catalog_keys (c : song_json) : Prop :=
  is_Some (title c) ∧ is_Some (artist_name c).

#[global] Instance has_join_keys_dec e : Decision (has_join_keys e).
Proof. unfold has_join_keys. apply _. Defined.

#[global] Instance has_catalog_keys_dec c : Decision (has_catalog_keys c).
Proof. unfold has_catalog_keys. apply _. Defined.

(** The event of user 7 without a [ts]. *)
Definition event_7_without_ts : log_json :=
  {| page := Some "NextSong"; userId := Some "7"; firstName := Some "Jo";
     lastName := Some "Do"; gender := Some "F"; level := Some "free";
     ts := None; sessionId := Some 1; song := Some "Song A";
     artist := Some "Band A"; userAgent := Some "UA" |}.

(** How many rows of the time table, and how many events, carry the start
    time [t]. *)
Definition time_rows_at (t : sql.timestamp) (rows : list time_tables.row) : nat :=
  length (filter (fun r => time_tables.start_time r = Some t) rows).

Definition events_at (t : sql.timestamp) (events : list log_json) : nat :=
  length (filter (fun e => start_time_of e = Some t) events).

(** The capacity within which the identifier stays non-negative: at most
    2^30 partitions, each of fewer than 2^33 rows. *)
Definition within_positive_id_capacity {A} (parts : list (list A)) : Prop :=
  Z.of_nat (length parts) <= 2 ^ 30
  ∧ Forall (fun rows => Z.of_nat (length rows) < 2 ^ 33) parts.

(** ** Rounding, as the float operations record it *)

(** [rest] out of [U], as a location: nothing, less than half, half, more. *)
Definition located (l : location) (rest U : Z) : Prop :=
  match l with
  | loc_Exact => rest = 0
  | loc_Inexact Lt => 0 < rest ∧ 2 * rest < U
  | loc_Inexact Eq => 2 * rest = U
  | loc_Inexact Gt => U < 2 * rest
  end.

(** The record stands for the number [V / U]: its mantissa is the integer
    part and its two bits locate the remainder. *)
Definition stands_for (mrs : shr_record) (V U : Z) : Prop :=
  0 <= shr_m mrs
  ∧ ∃ rest, 0 <= rest < U ∧ V = shr_m mrs * U + rest
            ∧ located (loc_of_shr_record mrs) rest U.

(** A start time of [t] microseconds keeps the [ts] milliseconds it was
    derived from: it is [1000 * ts], or one microsecond nearer to the epoch
    than that; its whole seconds are those of [ts]; and it is exactly
    [1000 * ts] when [ts] is a whole number of seconds. *)
Definition milliseconds_kept (ts t : Z) : Prop :=
  Z.abs (1000 * ts - t) <= 1
  ∧ Z.abs t <= Z.abs (1000 * ts)
  ∧ t / 1000000 = ts / 1000
  ∧ (ts mod 1000 = 0 → t = 1000 * ts).

(** ** Vocabulary of the script on JSON files *)

(** The columns that the queries name, per relation. *)
Definition song_columns : list string :=
  [ "song_id"; "title"; "artist_id"; "year"; "duration"; "artist_name";
    "artist_location"; "artist_latitude"; "artist_longitude" ].

Definition log_columns : list string :=
  [ "page"; "userId"; "firstName"; "lastName"; "gender"; "level"; "ts";
    "sessionId"; "userAgent"; "song"; "artist" ].

(** The catalog object of the example scenario, with whatever it carries
    under [artist_location], and the event object of the scenario. *)
Definition catalog_S1_object (location : field string) : song_object.t :=
  {| song_object.song_id := value "S1";
     song_object.title := value "Song A";
     song_object.artist_id := value "E1";
     song_object.year := value 2000;
     song_object.duration := value (of_long 200);
     song_object.artist_name := value "Band A";
     song_object.artist_location := location;
     song_object.artist_latitude := value (of_long 1);
     song_object.artist_longitude := value (of_long 1) |}.

Definition event_7_object : log_object.t :=
  {| log_object.page := value "NextSong";
     log_object.userId := value "7";
     log_object.firstName := value "Jo";
     log_object.lastName := value "Do";
     log_object.gender := value "F";
     log_object.level := value "free";
     log_object.ts := value 1541440000000;
     log_object.sessionId := value 1;
     log_object.song := value "Song A";
     log_object.artist := value "Band A";
     log_object.userAgent := value "UA" |}.

(** An event object of another page, with every key of the log. *)
Definition event_home_object : log_object.t :=
  {| log_object.page := value "Home";
     log_object.userId := value "7";
     log_object.firstName := value "Jo";
     log_object.lastName := value "Do";
     log_object.gender := value "F";
     log_object.level := value "free";
     log_object.ts := value 1541440000000;
     log_object.sessionId := value 1;
     log_object.song := null;
     log_object.artist := null;
     log_object.userAgent := value "UA" |}.

(** The given objects under the local input directory. *)
Definition local_files (songs : list song_object.t) (log : list log_object.t)
    : json_files :=
  {| song_objects := fun pattern =>
       if bool_decide (pattern = "data/song_data/*/*/*/*.json") then songs else [];
     log_objects := fun pattern =>
       if bool_decide (pattern = "data/log_data/*.json") then log else [] |}.

(** A storage that holds nothing. *)
Definition empty_storage : storage :=
  {| song_files := fun _ => [];
     log_files := fun _ => [];
     parquet := ∅;
     write_log := [] |}.

(** The storage that a call leaves, however it ends. *)
Definition storage_of (o : outcome) : storage :=
  match o with
  | returned st => st
  | raised st => st
  end.

(** * Properties *)

(** ** Exact binary64 arithmetic *)

(** [iter_pos] is iteration [Pos.to_nat] times. *)
Lemma iter_pos_nat {A} (f : A → A) (p : positive) (x : A) :
  SpecFloat.iter_pos f p x = Nat.iter (Pos.to_nat p) f x.
Proof.
  revert x. induction p as [p IH|p IH|]; intros x; cbn [SpecFloat.iter_pos].
  - rewrite !IH, Pos2Nat.inj_xI.
    replace (S (2 * Pos.to_nat p))%nat with (Pos.to_nat p + (Pos.to_nat p + 1))%nat
      by lia.
    by rewrite !Nat.iter_add.
  - rewrite !IH, Pos2Nat.inj_xO.
    replace (2 * Pos.to_nat p)%nat with (Pos.to_nat p + Pos.to_nat p)%nat by lia.
    by rewrite Nat.iter_add.
  - done.
Qed.

Lemma Zpos_shifted p k : Zpos (shifted p k) = Zpos p * 2 ^ Z.of_nat k.
Proof.
  induction k as [|k IH]; [simpl; lia|].
  change (shifted p (S k)) with (xO (shifted p k)).
  rewrite Pos2Z.inj_xO, IH, Nat2Z.inj_succ, Z.pow_succ_r by lia. lia.
Qed.

Lemma digits_shifted p k :
  Zpos (digits2_pos (shifted p k)) = Zpos (digits2_pos p) + Z.of_nat k.
Proof.
  induction k as [|k IH]; [simpl; lia|].
  change (shifted p (S k)) with (xO (shifted p k)). simpl.
  rewrite Pos2Z.inj_succ, IH. lia.
Qed.

Lemma shr_1_shifted p k :
  Nat.iter k shr_1 {| shr_m := Zpos (shifted p k); shr_r := false; shr_s := false |}
  = {| shr_m := Zpos p; shr_r := false; shr_s := false |}.
Proof.
  induction k as [|k IH]; [done|].
  rewrite Nat.iter_succ_r. exact IH.
Qed.

Lemma digits2_pos_spec p :
  2 ^ (Zpos (digits2_pos p) - 1) <= Zpos p < 2 ^ Zpos (digits2_pos p).
Proof.
  induction p as [p IH|p IH|]; simpl digits2_pos; [| |simpl; lia];
    rewrite Pos2Z.inj_succ;
    replace (Z.succ (Zpos (digits2_pos p)) - 1) with (Z.succ (Zpos (digits2_pos p) - 1)) by lia;
    rewrite !Z.pow_succ_r by lia; lia.
Qed.

Lemma digits2_pos_unique p d :
  2 ^ (d - 1) <= Zpos p < 2 ^ d → Zpos (digits2_pos p) = d.
Proof.
  intros [Hlo Hhi]. pose proof (digits2_pos_spec p) as [Hlo' Hhi'].
  assert (0 < d) as Hd.
  { destruct (Z.lt_trichotomy d 0) as [Hneg|[->|Hpos]]; [|simpl in Hhi; lia|done].
    rewrite Z.pow_neg_r in Hhi by done. lia. }
  destruct (Z.lt_trichotomy (Zpos (digits2_pos p)) d) as [Hlt|[Heq|Hgt]]; [|done|].
  - assert (2 ^ Zpos (digits2_pos p) <= 2 ^ (d - 1)) by (apply Z.pow_le_mono_r; lia). lia.
  - assert (2 ^ d <= 2 ^ (Zpos (digits2_pos p) - 1)) by (apply Z.pow_le_mono_r; lia). lia.
Qed.

Lemma fexp_normal x : -1074 <= x - 53 → fexp prec emax x = x - 53.
Proof. unfold fexp, emin, prec, emax. lia. Qed.

Lemma shr_shifted n k e :
  shr {| shr_m := Zpos (shifted n k); shr_r := false; shr_s := false |} e (Z.of_nat k)
  = ({| shr_m := Zpos n; shr_r := false; shr_s := false |}, e + Z.of_nat k).
Proof.
  destruct k as [|k].
  - simpl. by rewrite Z.add_0_r.
  - unfold shr. rewrite Nat2Z.inj_succ, <- Zpos_P_of_succ_nat.
    rewrite iter_pos_nat, SuccNat2Pos.id_succ. by rewrite shr_1_shifted.
Qed.

(** Rounding a mantissa of 53 significant bits followed by zeros is exact. *)
Lemma binary_round_aux_exact sx (n : positive) (k : nat) (e : Z) :
  Zpos (digits2_pos n) = 53 → -1074 <= e + Z.of_nat k <= 971 →
  binary_round_aux prec emax sx (Zpos (shifted n k)) e loc_Exact
  = S754_finite sx n (e + Z.of_nat k).
Proof.
  intros Hd He. unfold binary_round_aux, shr_fexp.
  cbn [Zdigits2 shr_record_of_loc]. rewrite digits_shifted, Hd.
  rewrite fexp_normal by lia.
  replace (53 + Z.of_nat k + e - 53 - e) with (Z.of_nat k) by lia.
  rewrite shr_shifted. cbn [shr_m loc_of_shr_record round_nearest_even Zdigits2].
  rewrite Hd, fexp_normal by lia.
  replace (53 + (e + Z.of_nat k) - 53 - (e + Z.of_nat k)) with 0 by lia.
  cbn [shr shr_m].
  replace (e + Z.of_nat k <=? emax - prec) with true; [done|].
  symmetry. apply Z.leb_le. unfold emax, prec. lia.
Qed.

Lemma digits_exact_mantissa p :
  Zpos (digits2_pos p) <= 53 →
  Zpos (digits2_pos (shifted p (Z.to_nat (53 - Zpos (digits2_pos p))))) = 53.
Proof. intros Hd. rewrite digits_shifted. lia. Qed.

Lemma binary_round_exact s p :
  Zpos (digits2_pos p) <= 53 → binary_round prec emax s p 0 = exact s p.
Proof.
  intros Hd. unfold binary_round, shl_align. rewrite fexp_normal by lia.
  pose proof (digits_exact_mantissa p Hd) as Hn.
  destruct (Zpos (digits2_pos p) + 0 - 53 - 0) as [|q|q] eqn:Hq; [|lia|].
  - assert (Zpos (digits2_pos p) = 53) as H53 by lia.
    pose proof (binary_round_aux_exact s p 0 0 H53 ltac:(simpl; lia)) as Hr.
    change (shifted p 0) with p in Hr. rewrite Hr.
    unfold exact. rewrite H53. done.
  - rewrite Pos2Nat.inj_iter.
    assert (Z.to_nat (53 - Zpos (digits2_pos p)) = Pos.to_nat q) as Hk by lia.
    rewrite Hk in Hn.
    pose proof (binary_round_aux_exact s (shifted p (Pos.to_nat q)) 0
                  (Zpos (digits2_pos p) + 0 - 53) Hn ltac:(simpl; lia)) as Hr.
    change (shifted (shifted p (Pos.to_nat q)) 0) with (shifted p (Pos.to_nat q)) in Hr.
    etrans; [exact Hr|].
    unfold exact. rewrite Hk. f_equal. lia.
Qed.

Lemma of_long_pos p : Zpos (digits2_pos p) <= 53 → of_long (Zpos p) = exact false p.
Proof. apply binary_round_exact. Qed.

Lemma of_long_neg p : Zpos (digits2_pos p) <= 53 → of_long (Zneg p) = exact true p.
Proof. apply binary_round_exact. Qed.

Lemma digits_le_53 p : Zpos p < 2 ^ 53 → Zpos (digits2_pos p) <= 53.
Proof.
  intros Hp. pose proof (digits2_pos_spec p) as [Hlo _].
  destruct (decide (Zpos (digits2_pos p) <= 53)) as [|Hgt]; [done|].
  assert (2 ^ 53 <= 2 ^ (Zpos (digits2_pos p) - 1)) by (apply Z.pow_le_mono_r; lia).
  lia.
Qed.

Lemma lt_53_bits p : Zpos (digits2_pos p) <= 53 → Zpos p < 2 ^ 53.
Proof.
  intros Hd. pose proof (digits2_pos_spec p) as [_ Hhi].
  assert (2 ^ Zpos (digits2_pos p) <= 2 ^ 53) by (apply Z.pow_le_mono_r; lia).
  lia.
Qed.

Lemma digits_mul a b :
  Zpos (digits2_pos a) + Zpos (digits2_pos b) - 1 <= Zpos (digits2_pos (a * b))
  ∧ Zpos (digits2_pos (a * b)) <= Zpos (digits2_pos a) + Zpos (digits2_pos b).
Proof.
  pose proof (digits2_pos_spec a) as [Ha Ha'].
  pose proof (digits2_pos_spec b) as [Hb Hb'].
  pose proof (digits2_pos_spec (a * b)) as [Hab Hab'].
  rewrite Pos2Z.inj_mul in Hab, Hab'.
  set (da := Zpos (digits2_pos a)) in *. set (db := Zpos (digits2_pos b)) in *.
  set (dab := Zpos (digits2_pos (a * b))) in *.
  assert (0 < da ∧ 0 < db ∧ 0 < dab) as (? & ? & ?) by (unfold da, db, dab; lia).
  assert (2 ^ (da - 1) * 2 ^ (db - 1) = 2 ^ (da + db - 2)) as Hlow.
  { rewrite <- Z.pow_add_r by lia. f_equal. lia. }
  assert (2 ^ da * 2 ^ db = 2 ^ (da + db)) as Hhigh.
  { by rewrite <- Z.pow_add_r by lia. }
  assert (0 < 2 ^ (da - 1) ∧ 0 < 2 ^ (db - 1)) as [? ?]
    by (split; apply Z.pow_pos_nonneg; lia).
  split.
  - destruct (decide (da + db - 1 <= dab)) as [|Hgt]; [done|].
    assert (2 ^ dab <= 2 ^ (da + db - 2)) by (apply Z.pow_le_mono_r; lia). nia.
  - destruct (decide (dab <= da + db)) as [|Hgt]; [done|].
    assert (2 ^ (da + db) <= 2 ^ (dab - 1)) by (apply Z.pow_le_mono_r; lia). nia.
Qed.

Lemma digits_mul_l a b :
  Zpos (digits2_pos (a * b)) <= 53 →
  Zpos (digits2_pos a) <= 53 ∧ Zpos (digits2_pos b) <= 53.
Proof. pose proof (digits_mul a b). lia. Qed.

(** The value of the mantissa of [exact s p]. *)
Lemma Zpos_exact_mantissa p :
  Zpos (digits2_pos p) <= 53 →
  Zpos (shifted p (Z.to_nat (53 - Zpos (digits2_pos p))))
  = Zpos p * 2 ^ (53 - Zpos (digits2_pos p)).
Proof. intros Hd. rewrite Zpos_shifted, Z2Nat.id by lia. done. Qed.

Lemma mul_exact s1 s2 a b :
  Zpos (digits2_pos (a * b)) <= 53 →
  mul (exact s1 a) (exact s2 b) = exact (xorb s1 s2) (a * b).
Proof.
  intros Hab. destruct (digits_mul_l a b Hab) as [Ha Hb].
  pose proof (digits_mul a b) as [Hlo Hhi].
  unfold mul, exact. cbn [SFmul].
  set (da := Zpos (digits2_pos a)) in *. set (db := Zpos (digits2_pos b)) in *.
  set (dab := Zpos (digits2_pos (a * b))) in *.
  assert ((shifted a (Z.to_nat (53 - da)) * shifted b (Z.to_nat (53 - db)))%positive
          = shifted (shifted (a * b) (Z.to_nat (53 - dab)))
                    (Z.to_nat (53 + dab - da - db))) as ->.
  { apply Pos2Z.inj. rewrite Pos2Z.inj_mul, !Zpos_shifted, !Z2Nat.id by lia.
    rewrite Pos2Z.inj_mul.
    transitivity (Zpos a * Zpos b * (2 ^ (53 - da) * 2 ^ (53 - db))); [ring|].
    transitivity (Zpos a * Zpos b * (2 ^ (53 - dab) * 2 ^ (53 + dab - da - db)));
      [|ring].
    rewrite <- !Z.pow_add_r by lia. do 2 f_equal. lia. }
  rewrite binary_round_aux_exact.
  - f_equal. rewrite Z2Nat.id by lia. lia.
  - by apply digits_exact_mantissa.
  - rewrite Z2Nat.id by lia. unfold da, db in *. lia.
Qed.

Lemma div_eucl_div_mod a b : Z.div_eucl a b = (a / b, a mod b).
Proof. unfold Z.div, Z.modulo. by destruct (Z.div_eucl a b). Qed.

Lemma SFdiv_core_exact (X Y : positive) (ex ey Q : Z) :
  Zpos (digits2_pos X) = 53 → Zpos (digits2_pos Y) = 53 →
  -900 <= ex - ey <= 900 →
  Zpos X * 2 ^ 53 = Q * Zpos Y →
  SFdiv_core_binary prec emax (Zpos X) ex (Zpos Y) ey = (Q, ex - ey - 53, loc_Exact).
Proof.
  intros HX HY He HQ. unfold SFdiv_core_binary. cbn [Zdigits2]. rewrite HX, HY.
  rewrite fexp_normal by lia. rewrite Z.min_l by lia.
  replace (ex - ey - (53 + ex - (53 + ey) - 53)) with 53 by lia.
  rewrite Z.shiftl_mul_pow2, HQ by lia.
  rewrite div_eucl_div_mod, Z.div_mul, Z.mod_mul by lia.
  f_equal; [f_equal; lia|].
  unfold new_location, new_location_even, new_location_odd.
  by destruct (Z.even (Zpos Y)).
Qed.

Lemma div_exact s1 s2 a b :
  Zpos (digits2_pos (a * b)) <= 53 →
  div (exact s1 (a * b)) (exact s2 b) = exact (xorb s1 s2) a.
Proof.
  intros Hab. destruct (digits_mul_l a b Hab) as [Ha Hb].
  pose proof (digits_mul a b) as [Hlo Hhi].
  unfold div, exact. cbn [SFdiv].
  set (da := Zpos (digits2_pos a)) in *. set (db := Zpos (digits2_pos b)) in *.
  set (dab := Zpos (digits2_pos (a * b))) in *.
  assert (0 < da ∧ 0 < db ∧ 0 < dab) as (? & ? & ?) by (unfold da, db, dab; lia).
  rewrite (SFdiv_core_exact _ _ _ _
             (Zpos (shifted (shifted a (Z.to_nat (53 - da)))
                            (Z.to_nat (da + db - dab))))).
  - rewrite binary_round_aux_exact.
    + f_equal. rewrite Z2Nat.id by lia. lia.
    + by apply digits_exact_mantissa.
    + rewrite Z2Nat.id by lia. lia.
  - by apply digits_exact_mantissa.
  - by apply digits_exact_mantissa.
  - lia.
  - rewrite !Zpos_shifted, !Z2Nat.id by lia. rewrite Pos2Z.inj_mul.
    transitivity (Zpos a * Zpos b * (2 ^ (53 - dab) * 2 ^ 53)); [ring|].
    transitivity (Zpos a * Zpos b
                  * (2 ^ (53 - da) * 2 ^ (da + db - dab) * 2 ^ (53 - db))); [|ring].
    rewrite <- !Z.pow_add_r by lia. do 2 f_equal. lia.
Qed.

Lemma to_long_exact s p :
  Zpos (digits2_pos p) <= 53 →
  to_long (exact s p) = if s then Zneg p else Zpos p.
Proof.
  intros Hd. pose proof (lt_53_bits p Hd) as Hp.
  unfold to_long, exact.
  assert (match Zpos (digits2_pos p) - 53 with
          | 0 => Zpos (shifted p (Z.to_nat (53 - Zpos (digits2_pos p))))
          | Zpos _ => Z.shiftl (Zpos (shifted p (Z.to_nat (53 - Zpos (digits2_pos p)))))
                        (Zpos (digits2_pos p) - 53)
          | Zneg _ => Z.shiftr (Zpos (shifted p (Z.to_nat (53 - Zpos (digits2_pos p)))))
                        (- (Zpos (digits2_pos p) - 53))
          end = Zpos p) as ->.
  { rewrite Zpos_exact_mantissa by done.
    destruct (Zpos (digits2_pos p) - 53) as [|q|q] eqn:Hq; [|lia|].
    - replace (53 - Zpos (digits2_pos p)) with 0 by lia. simpl. lia.
    - rewrite Z.shiftr_div_pow2 by lia.
      replace (53 - Zpos (digits2_pos p)) with (- Zneg q) by lia.
      apply Z.div_mul. apply Z.pow_nonzero; lia. }
  unfold long_min, long_max.
  change (2 ^ 63) with 9223372036854775808.
  change (2 ^ 53) with 9007199254740992 in Hp.
  destruct s; lia.
Qed.

(** A whole number of seconds, given in milliseconds, is converted without
    any rounding. *)
Lemma to_timestamp_whole_seconds (k : Z) :
  Z.abs k * 1000000 < 2 ^ 53 →
  sql.to_timestamp (sql.divide (Some (1000 * k)) 1000) = Some (k * 1000000).
Proof.
  intros Hk. unfold sql.divide, sql.to_timestamp, sql.MICROS_PER_SECOND.
  rewrite bool_decide_false by done.
  assert (of_long 1000 = exact false 1000) as -> by (by apply of_long_pos).
  assert (of_long 1000000 = exact false 1000000) as -> by (by apply of_long_pos).
  destruct k as [|p|p].
  - vm_compute. reflexivity.
  - assert (Zpos (digits2_pos (p * 1000000)) <= 53) as Hd.
    { apply digits_le_53. rewrite Pos2Z.inj_mul. lia. }
    assert (Zpos (digits2_pos (p * 1000)) <= 53) as Hd'.
    { apply digits_le_53. rewrite Pos2Z.inj_mul.
      change (2 ^ 53) with 9007199254740992 in *. lia. }
    replace (1000 * Zpos p) with (Zpos (p * 1000)) by lia.
    rewrite of_long_pos, div_exact, mul_exact by done.
    cbn [is_nan is_infinite exact orb]. rewrite to_long_exact by done.
    simpl. f_equal.
  - assert (Zpos (digits2_pos (p * 1000000)) <= 53) as Hd.
    { apply digits_le_53. rewrite Pos2Z.inj_mul. lia. }
    assert (Zpos (digits2_pos (p * 1000)) <= 53) as Hd'.
    { apply digits_le_53. rewrite Pos2Z.inj_mul.
      change (2 ^ 53) with 9007199254740992 in *. lia. }
    replace (1000 * Zneg p) with (Zneg (p * 1000)) by lia.
    rewrite of_long_neg, div_exact, mul_exact by done.
    cbn [is_nan is_infinite exact orb]. rewrite to_long_exact by done.
    simpl. f_equal.
Qed.

(** ** Rounded binary64 arithmetic *)

Lemma shr_1_stands_for mrs V U :
  stands_for mrs V U → stands_for (shr_1 mrs) V (2 * U).
Proof.
  intros (Hm & rest & Hrest & HV & Hloc).
  destruct mrs as [m r s]. simpl in *.
  destruct m as [|[p|p|]|p]; [| | | |exfalso; lia];
    destruct r, s; unfold stands_for; simpl in *; (split; [lia|]);
    first [ exists rest; split; [lia|]; split; [lia|]; simpl; lia
          | exists (U + rest); split; [lia|]; split; [lia|]; simpl; lia ].
Qed.

Lemma shr_1_m mrs : 0 <= shr_m mrs → shr_m (shr_1 mrs) = shr_m mrs / 2.
Proof.
  destruct mrs as [m r s]. cbn [shr_m]. intros Hm.
  destruct m as [|[p|p|]|p]; cbn [shr_1 shr_m]; [done| | |done|lia].
  - rewrite (Pos2Z.inj_xI p). Z.div_mod_to_equations. lia.
  - rewrite (Pos2Z.inj_xO p). Z.div_mod_to_equations. lia.
Qed.

Lemma iter_shr_1 (k : nat) mrs V U :
  stands_for mrs V U →
  stands_for (Nat.iter k shr_1 mrs) V (2 ^ Z.of_nat k * U)
  ∧ shr_m (Nat.iter k shr_1 mrs) = shr_m mrs / 2 ^ Z.of_nat k.
Proof.
  intros Hst. induction k as [|k [IH1 IH2]].
  - change (2 ^ Z.of_nat 0) with 1. change (Nat.iter 0 shr_1 mrs) with mrs.
    by rewrite Z.mul_1_l, Z.div_1_r.
  - change (Nat.iter (S k) shr_1 mrs) with (shr_1 (Nat.iter k shr_1 mrs)). split.
    + replace (2 ^ Z.of_nat (S k) * U) with (2 * (2 ^ Z.of_nat k * U))
        by (rewrite Nat2Z.inj_succ, Z.pow_succ_r by lia; lia).
      by apply shr_1_stands_for.
    + rewrite shr_1_m by (by destruct IH1). rewrite IH2.
      rewrite Nat2Z.inj_succ, Z.pow_succ_r by lia.
      rewrite Z.div_div by (try lia; apply Z.pow_pos_nonneg; lia).
      f_equal. lia.
Qed.

Lemma shr_iter mrs e (k : nat) :
  shr mrs e (Z.of_nat k) = (Nat.iter k shr_1 mrs, e + Z.of_nat k).
Proof.
  destruct k as [|k].
  - simpl. by rewrite Z.add_0_r.
  - unfold shr. rewrite Nat2Z.inj_succ, <- Zpos_P_of_succ_nat.
    by rewrite iter_pos_nat, SuccNat2Pos.id_succ.
Qed.

Lemma loc_of_shr_record_of_loc m l :
  loc_of_shr_record (shr_record_of_loc m l) = l
  ∧ shr_m (shr_record_of_loc m l) = m.
Proof. by destruct l as [|[]]. Qed.

Lemma round_nearest_even_bound mrs V U :
  stands_for mrs V U →
  let m' := round_nearest_even (shr_m mrs) (loc_of_shr_record mrs) in
  shr_m mrs <= m' <= shr_m mrs + 1 ∧ Z.abs (2 * (m' * U - V)) <= U.
Proof.
  intros (Hm & rest & Hrest & HV & Hloc). destruct mrs as [m r s].
  destruct r, s; simpl in *; try destruct (Z.even m); lia.
Qed.

Lemma pow2_53 : 2 ^ 53 = 9007199254740992.
Proof. reflexivity. Qed.

Lemma pow2_52 : 2 ^ 52 = 4503599627370496.
Proof. reflexivity. Qed.

(** Rounding to nearest: the result is within half a unit of the last
    place kept. *)
Lemma binary_round_aux_bound sx (pm : positive) e l V U :
  53 <= Zpos (digits2_pos pm) → 0 < U →
  (∃ rest, 0 <= rest < U ∧ V = Zpos pm * U + rest ∧ located l rest U) →
  -1074 <= e + (Zpos (digits2_pos pm) - 53) →
  e + (Zpos (digits2_pos pm) - 53) + 1 <= 971 →
  ∃ mz j,
    binary_round_aux prec emax sx (Zpos pm) e l = S754_finite sx mz (e + j)
    ∧ Zpos (digits2_pos mz) = 53
    ∧ Zpos (digits2_pos pm) - 53 <= j <= Zpos (digits2_pos pm) - 52
    ∧ Z.abs (2 * (Zpos mz * 2 ^ j * U - V)) <= 2 ^ (Zpos (digits2_pos pm) - 53) * U.
Proof.
  intros Hd HU Hrest Hlo Hhi.
  set (d := Zpos (digits2_pos pm)) in *.
  set (k := Z.to_nat (d - 53)).
  assert (Z.of_nat k = d - 53) as Hk by (unfold k; lia).
  assert (stands_for (shr_record_of_loc (Zpos pm) l) V U) as Hst.
  { destruct (loc_of_shr_record_of_loc (Zpos pm) l) as [Hl Hm].
    split; [rewrite Hm; lia|]. rewrite Hl, Hm. exact Hrest. }
  destruct (iter_shr_1 k _ V U Hst) as [Hst1 Hm1].
  destruct (loc_of_shr_record_of_loc (Zpos pm) l) as [_ Hm0]. rewrite Hm0 in Hm1.
  set (mrs1 := Nat.iter k shr_1 (shr_record_of_loc (Zpos pm) l)) in *.
  pose proof (round_nearest_even_bound mrs1 V _ Hst1) as [Hm2 Hbound].
  set (m2 := round_nearest_even (shr_m mrs1) (loc_of_shr_record mrs1)) in *.
  pose proof (digits2_pos_spec pm) as [Hpm_lo Hpm_hi]. fold d in Hpm_lo, Hpm_hi.
  assert (0 < 2 ^ Z.of_nat k) as Hpow by (apply Z.pow_pos_nonneg; lia).
  assert (2 ^ 52 <= shr_m mrs1 < 2 ^ 53) as Hm1_range.
  { rewrite Hm1.
    assert (2 ^ (d - 1) = 2 ^ 52 * 2 ^ Z.of_nat k) as E1
      by (rewrite <- Z.pow_add_r by lia; f_equal; lia).
    assert (2 ^ d = 2 ^ 53 * 2 ^ Z.of_nat k) as E2
      by (rewrite <- Z.pow_add_r by lia; f_equal; lia).
    split.
    - apply Z.div_le_lower_bound; lia.
    - apply Z.div_lt_upper_bound; lia. }
  unfold binary_round_aux, shr_fexp. cbn [Zdigits2]. fold d.
  rewrite fexp_normal by lia.
  replace (d + e - 53 - e) with (Z.of_nat k) by lia.
  rewrite shr_iter. fold mrs1. fold m2.
  rewrite pow2_52, pow2_53 in Hm1_range.
  destruct m2 as [|pm2|pm2] eqn:Em2; [lia| |lia].
  destruct (decide (Zpos pm2 < 2 ^ 53)) as [Hsmall|Hbig].
  - assert (Zpos (digits2_pos pm2) = 53) as Hd2.
    { apply digits2_pos_unique. rewrite pow2_53 in *. change (2 ^ (53 - 1)) with 4503599627370496. lia. }
    cbn [Zdigits2 shr_record_of_loc]. rewrite Hd2, fexp_normal by lia.
    replace (53 + (e + Z.of_nat k) - 53 - (e + Z.of_nat k)) with 0 by lia.
    cbn [shr shr_m].
    replace (e + Z.of_nat k <=? emax - prec) with true
      by (symmetry; apply Z.leb_le; unfold emax, prec; lia).
    exists pm2, (Z.of_nat k). split_and!; [done|done|lia|lia|].
    rewrite <- Hk. lia.
  - assert (Zpos pm2 = 2 ^ 53) as E53 by (rewrite pow2_53 in *; lia).
    assert (pm2 = shifted 4503599627370496 1) as ->.
    { apply Pos2Z.inj. rewrite E53. reflexivity. }
    cbn [Zdigits2 shr_record_of_loc].
    replace (Zpos (digits2_pos (shifted 4503599627370496 1))) with 54 by reflexivity.
    rewrite fexp_normal by lia.
    replace (54 + (e + Z.of_nat k) - 53 - (e + Z.of_nat k)) with (Z.of_nat 1) by lia.
    rewrite shr_shifted. cbn [shr_m].
    replace (e + Z.of_nat k + Z.of_nat 1 <=? emax - prec) with true
      by (symmetry; apply Z.leb_le; unfold emax, prec; lia).
    exists 4503599627370496%positive, (Z.of_nat k + 1).
    split_and!; [f_equal; lia|reflexivity|lia|lia|].
    rewrite <- Hk.
    replace (4503599627370496 * 2 ^ (Z.of_nat k + 1))
      with (Zpos (shifted 4503599627370496 1) * 2 ^ Z.of_nat k).
    + rewrite <- Z.mul_assoc. exact Hbound.
    + rewrite Z.pow_add_r by lia. change (2 ^ 1) with 2.
      change (Zpos (shifted 4503599627370496 1)) with (2 * 4503599627370496). lia.
Qed.

Lemma new_location_located Y r :
  0 < Y → 0 <= r < Y → located (new_location Y r) r Y.
Proof.
  intros HY Hr. unfold new_location, new_location_even, new_location_odd.
  destruct (Z.even Y) eqn:Heven; destruct (Z.eqb_spec r 0) as [->|Hr0];
    try done.
  - destruct (Z.compare_spec (2 * r) Y); simpl; lia.
  - assert (Z.odd Y = true) as [q Hq]%Z.odd_spec
      by (by rewrite <- Z.negb_even, Heven).
    destruct (Z.compare_spec (2 * r + 1) Y); simpl; lia.
Qed.

(** Correctly rounded division of two normal numbers: the relative error
    is at most 2^-53. *)
Lemma div_bound sx sy (X Y : positive) (ex ey : Z) :
  Zpos (digits2_pos X) = 53 → Zpos (digits2_pos Y) = 53 →
  -900 <= ex - ey <= 900 →
  ∃ mz j,
    div (S754_finite sx X ex) (S754_finite sy Y ey)
    = S754_finite (xorb sx sy) mz (ex - ey - 53 + j)
    ∧ Zpos (digits2_pos mz) = 53
    ∧ 0 <= j <= 2
    ∧ Z.abs (2 * (Zpos mz * 2 ^ j * Zpos Y - Zpos X * 2 ^ 53)) * 2 ^ 52
      <= Zpos X * 2 ^ 53.
Proof.
  intros HX HY He.
  pose proof (digits2_pos_spec X) as [HXlo HXhi].
  pose proof (digits2_pos_spec Y) as [HYlo HYhi].
  rewrite HX in HXlo, HXhi. rewrite HY in HYlo, HYhi.
  change (2 ^ (53 - 1)) with (2 ^ 52) in *.
  unfold div. cbn [SFdiv]. unfold SFdiv_core_binary. cbn [Zdigits2].
  rewrite HX, HY, fexp_normal by lia. rewrite Z.min_l by lia.
  replace (ex - ey - (53 + ex - (53 + ey) - 53)) with 53 by lia.
  rewrite Z.shiftl_mul_pow2 by lia.
  rewrite div_eucl_div_mod.
  set (V := Zpos X * 2 ^ 53).
  pose proof (Z.div_mod V (Zpos Y) ltac:(lia)) as Hdm.
  pose proof (Z.mod_pos_bound V (Zpos Y) ltac:(lia)) as Hmod.
  set (q := V / Zpos Y) in *. set (r := V mod Zpos Y) in *.
  assert (V = Zpos X * 9007199254740992) as HV by reflexivity.
  rewrite pow2_52, pow2_53 in *.
  assert (4503599627370496 <= q < 18014398509481984) as Hq by nia.
  destruct q as [|pq|pq] eqn:Eq; [lia| |lia].
  pose proof (digits2_pos_spec pq) as [Hqlo Hqhi].
  assert (53 <= Zpos (digits2_pos pq) <= 54) as Hdq.
  { split.
    - destruct (decide (53 <= Zpos (digits2_pos pq))) as [|Hn]; [done|].
      assert (2 ^ Zpos (digits2_pos pq) <= 2 ^ 52)
        by (apply Z.pow_le_mono_r; lia).
      rewrite pow2_52 in *. lia.
    - destruct (decide (Zpos (digits2_pos pq) <= 54)) as [|Hn]; [done|].
      assert (2 ^ 54 <= 2 ^ (Zpos (digits2_pos pq) - 1))
        by (apply Z.pow_le_mono_r; lia).
      change (2 ^ 54) with 18014398509481984 in *. lia. }
  destruct (binary_round_aux_bound (xorb sx sy) pq (53 + ex - (53 + ey) - 53)
              (new_location (Zpos Y) r) V (Zpos Y))
    as (mz & j & Hres & Hdz & Hj & Hbound); [lia|lia| |lia|lia|].
  { exists r. split_and!; [lia|lia|lia|]. apply new_location_located; lia. }
  exists mz, j. rewrite Hres.
  split; [f_equal; lia|]. split; [done|]. split; [lia|].
  assert (2 ^ (Zpos (digits2_pos pq) - 53) * 2 ^ 52 = 2 ^ (Zpos (digits2_pos pq) - 1))
    as Hpow by (rewrite <- Z.pow_add_r by lia; f_equal; lia).
  transitivity (2 ^ (Zpos (digits2_pos pq) - 53) * Zpos Y * 4503599627370496).
  - apply Z.mul_le_mono_nonneg_r; [lia|done].
  - rewrite pow2_52 in Hpow.
    replace (2 ^ (Zpos (digits2_pos pq) - 53) * Zpos Y * 4503599627370496)
      with (Zpos Y * 2 ^ (Zpos (digits2_pos pq) - 1)) by (rewrite <- Hpow; ring).
    assert (Zpos Y * 2 ^ (Zpos (digits2_pos pq) - 1) <= Zpos Y * Zpos pq)
      by (apply Z.mul_le_mono_nonneg_l; lia).
    lia.
Qed.

(** Correctly rounded product of two normal numbers. *)
Lemma mul_bound sx sy (X Y : positive) (ex ey : Z) :
  Zpos (digits2_pos X) = 53 → Zpos (digits2_pos Y) = 53 →
  -900 <= ex + ey <= 800 →
  ∃ mz j,
    mul (S754_finite sx X ex) (S754_finite sy Y ey)
    = S754_finite (xorb sx sy) mz (ex + ey + j)
    ∧ Zpos (digits2_pos mz) = 53
    ∧ 52 <= j <= 54
    ∧ Z.abs (2 * (Zpos mz * 2 ^ j - Zpos X * Zpos Y)) * 2 ^ 52
      <= Zpos X * Zpos Y.
Proof.
  intros HX HY He.
  pose proof (digits_mul X Y) as [Hlo Hhi]. rewrite HX, HY in Hlo, Hhi.
  unfold mul. cbn [SFmul].
  destruct (binary_round_aux_bound (xorb sx sy) (X * Y) (ex + ey) loc_Exact
              (Zpos (X * Y)) 1)
    as (mz & j & Hres & Hdz & Hj & Hbound); [lia|lia| |lia|lia|].
  { exists 0. split_and!; [lia|lia|lia|done]. }
  exists mz, j. rewrite Hres.
  split; [done|]. split; [done|]. split; [lia|].
  pose proof (digits2_pos_spec (X * Y)) as [Hplo _].
  assert (2 ^ (Zpos (digits2_pos (X * Y)) - 53) * 2 ^ 52
          = 2 ^ (Zpos (digits2_pos (X * Y)) - 1))
    as Hpow by (rewrite <- Z.pow_add_r by lia; f_equal; lia).
  rewrite <- Pos2Z.inj_mul.
  rewrite Z.mul_1_r in Hbound.
  transitivity (2 ^ (Zpos (digits2_pos (X * Y)) - 53) * 1 * 2 ^ 52).
  - apply Z.mul_le_mono_nonneg_r; [lia|done].
  - lia.
Qed.

Lemma exact_1000 : exact false 1000 = S754_finite false 8796093022208000 (-43).
Proof. reflexivity. Qed.

Lemma exact_1000000 : exact false 1000000 = S754_finite false 8589934592000000 (-33).
Proof. reflexivity. Qed.

(** Thousandths of a second to microseconds through binary64: the result
    is the exact product or one unit nearer to zero. *)
Lemma scaled_magnitude (s : bool) (p : positive) :
  1000 * Zpos p < 2 ^ 52 →
  ∃ R,
    sql.to_timestamp (Some (div (exact s p) (exact false 1000)))
    = Some (if s then - R else R)
    ∧ 1000 * Zpos p - 1 <= R <= 1000 * Zpos p.
Proof.
  intros Hp. rewrite pow2_52 in Hp.
  assert (Zpos (digits2_pos p) <= 53) as Hdp
    by (apply digits_le_53; rewrite pow2_53; lia).
  pose proof (digits_exact_mantissa p Hdp) as HdX.
  pose proof (Zpos_exact_mantissa p Hdp) as HX.
  set (dp := Zpos (digits2_pos p)) in *.
  assert (0 < dp) as Hdp0 by (unfold dp; lia).
  unfold sql.to_timestamp, sql.MICROS_PER_SECOND.
  assert (of_long 1000000 = exact false 1000000) as -> by (by apply of_long_pos).
  rewrite exact_1000, exact_1000000. unfold exact. fold dp.
  set (X := shifted p (Z.to_nat (53 - dp))) in *.
  destruct (div_bound s false X 8796093022208000 (dp - 53) (-43))
    as (mz1 & j1 & -> & Hd1 & Hj1 & Hb1); [done|reflexivity|lia|].
  cbn [is_nan is_infinite orb].
  destruct (mul_bound (xorb s false) false mz1 8589934592000000
              (dp - 53 - -43 - 53 + j1) (-33))
    as (M & j2 & -> & HdM & Hj2 & Hb2); [done|reflexivity|lia|].
  rewrite !xorb_false_r.
  set (E := dp - 53 - -43 - 53 + j1 + -33 + j2).
  set (A := 2 ^ (53 - dp)) in *.
  assert (0 < A) as HA by (apply Z.pow_pos_nonneg; lia).
  set (J1 := 2 ^ j1) in *. set (J2 := 2 ^ j2) in *.
  assert (0 < J1) as HJ1 by (apply Z.pow_pos_nonneg; lia).
  assert (0 < J2) as HJ2 by (apply Z.pow_pos_nonneg; lia).
  rewrite HX, pow2_52, pow2_53 in Hb1. rewrite pow2_52 in Hb2.
  set (P := Zpos p * A) in *.
  assert (1000 * P <= 4503599627370495 * A) as HP by (unfold P; nia).
  set (w := Zpos mz1 * J1) in *.
  set (z := Zpos M * J2 * J1).
  assert (Z.abs (2 * (z - w * 8589934592000000)) * 4503599627370496
          <= w * 8589934592000000) as Hb2'.
  { unfold z, w. nia. }
  assert (0 < P) as HP0 by (unfold P; nia).
  assert ((1000 * Zpos p - 1) * (8796093022208 * A) < z
          ∧ z < (1000 * Zpos p + 1) * (8796093022208 * A)) as [Hzlo Hzhi].
  { replace ((1000 * Zpos p - 1) * (8796093022208 * A))
      with (8796093022208000 * P - 8796093022208 * A) by (unfold P; lia).
    replace ((1000 * Zpos p + 1) * (8796093022208 * A))
      with (8796093022208000 * P + 8796093022208 * A) by (unfold P; lia).
    clearbody P w z. lia. }
  pose proof (digits2_pos_spec M) as [HMlo HMhi]. rewrite HdM in HMlo, HMhi.
  change (2 ^ (53 - 1)) with 4503599627370496 in HMlo. rewrite pow2_53 in HMhi.
  assert (E < 0) as HE.
  { destruct (decide (E < 0)) as [|HE]; [done|]. exfalso.
    assert (J2 * J1 = 2 ^ E * (8796093022208 * A)) as Hexp.
    { unfold J1, J2, A. change 8796093022208 with (2 ^ 43).
      rewrite <- !Z.pow_add_r by lia. f_equal. unfold E. lia. }
    assert (0 < 2 ^ E) by (apply Z.pow_pos_nonneg; lia).
    assert (z = Zpos M * 2 ^ E * (8796093022208 * A)) as Hz'
      by (unfold z; rewrite <- !Z.mul_assoc, Hexp; lia).
    assert (Zpos M * 1 <= Zpos M * 2 ^ E)
      by (apply Z.mul_le_mono_nonneg_l; lia).
    assert ((1000 * Zpos p + 1) * (8796093022208 * A)
            <= Zpos M * 2 ^ E * (8796093022208 * A))
      by (apply Z.mul_le_mono_nonneg_r; lia).
    lia. }
  assert (2 ^ (- E) * (J2 * J1) = 8796093022208 * A) as Hexp.
  { unfold J1, J2, A. change 8796093022208 with (2 ^ 43).
    rewrite <- !Z.pow_add_r by lia. f_equal. unfold E. lia. }
  assert (0 < 2 ^ (- E)) as HD by (apply Z.pow_pos_nonneg; lia).
  set (D := 2 ^ (- E)) in *.
  assert ((1000 * Zpos p - 1) * D < Zpos M ∧ Zpos M < (1000 * Zpos p + 1) * D)
    as [HMD1 HMD2].
  { assert (0 < J2 * J1) as HJ by (apply Z.mul_pos_pos; lia).
    rewrite <- Hexp in Hzlo, Hzhi. unfold z in Hzlo, Hzhi.
    split; apply (Z.mul_lt_mono_pos_r (J2 * J1)); [done|lia|done|lia]. }
  exists (Zpos M / D). split.
  - f_equal. unfold to_long. destruct E as [|pe|pe] eqn:EE; [lia|lia|].
    rewrite Z.shiftr_div_pow2 by lia. fold D.
    assert (0 <= Zpos M / D < 4503599627370496) as Hrange.
    { split; [apply Z.div_pos; lia|].
      apply Z.div_lt_upper_bound; [lia|].
      assert ((1000 * Zpos p + 1) * D <= 4503599627370496 * D)
        by (apply Z.mul_le_mono_nonneg_r; lia).
      lia. }
    unfold long_min, long_max. change (2 ^ 63) with 9223372036854775808.
    destruct s; lia.
  - split.
    + apply Z.div_le_lower_bound; lia.
    + assert (Zpos M / D < 1000 * Zpos p + 1); [|lia].
      apply Z.div_lt_upper_bound; lia.
Qed.

(** [to_timestamp(ts/1000)] for a [ts] within 2^52 microseconds of the
    epoch: the milliseconds are kept, up to one microsecond lost to binary64
    rounding, and the whole seconds are those of the integer division. *)
Lemma start_time_bounds (z : Z) :
  Z.abs (1000 * z) < 2 ^ 52 →
  ∃ t,
    sql.to_timestamp (sql.divide (Some z) 1000) = Some t
    ∧ Z.abs t <= Z.abs (1000 * z)
    ∧ Z.abs (1000 * z - t) <= 1
    ∧ t / 1000000 = z / 1000
    ∧ (z mod 1000 = 0 → t = 1000 * z).
Proof.
  intros Hz. rewrite pow2_52 in Hz.
  destruct (decide (z mod 1000 = 0)) as [Hwhole|Hfrac].
  - exists (1000 * z).
    assert (z = 1000 * (z / 1000)) as Hk by (Z.div_mod_to_equations; lia).
    split_and!; [|lia|lia|Z.div_mod_to_equations; lia|done].
    rewrite Hk at 1. rewrite to_timestamp_whole_seconds.
    + f_equal. unfold sql.MICROS_PER_SECOND. lia.
    + rewrite pow2_53. lia.
  - unfold sql.divide. rewrite bool_decide_false by done.
    assert (of_long 1000 = exact false 1000) as -> by (by apply of_long_pos).
    destruct z as [|p|p]; [done| |].
    + rewrite of_long_pos by (apply digits_le_53; rewrite pow2_53; lia).
      destruct (scaled_magnitude false p) as (R & -> & HR); [rewrite pow2_52; lia|].
      exists R. split_and!; [done|lia|lia| |done].
      Z.div_mod_to_equations. lia.
    + rewrite of_long_neg by (apply digits_le_53; rewrite pow2_53; lia).
      destruct (scaled_magnitude true p) as (R & -> & HR); [rewrite pow2_52; lia|].
      exists (- R). split_and!; [done|lia|lia| |done].
      Z.div_mod_to_equations. lia.
Qed.

(** ** The engine operators *)

Section engine_facts.
Context {A : Type}.

Lemma elem_of_distinct `{EqDecision A} (l : list A) x :
  x ∈ engine.distinct l ↔ x ∈ l.
Proof. apply elem_of_remove_dups. Qed.

Lemma NoDup_distinct `{EqDecision A} (l : list A) : NoDup (engine.distinct l).
Proof. apply NoDup_remove_dups. Qed.

Lemma distinct_NoDup `{EqDecision A} (l : list A) :
  NoDup l → engine.distinct l = l.
Proof.
  unfold engine.distinct. induction 1 as [|x l Hx _ IH]; simpl; [done|].
  rewrite IH. by destruct (decide_rel elem_of x l).
Qed.

Lemma distinct_Permutation `{EqDecision A} (l k : list A) :
  l ≡ₚ k → engine.distinct l ≡ₚ engine.distinct k.
Proof.
  intros Hlk. apply NoDup_Permutation; try apply NoDup_distinct.
  intros x. rewrite !elem_of_distinct. by rewrite Hlk.
Qed.

Lemma concat_partition_rows sizes (rows : list A) :
  concat (engine.partition_rows sizes rows) = rows.
Proof.
  revert rows. induction sizes as [|n sizes IH]; intros rows; simpl.
  - apply app_nil_r.
  - rewrite IH. apply take_drop.
Qed.

Lemma length_partition_rows sizes (rows : list A) :
  length (engine.partition_rows sizes rows) = S (length sizes).
Proof.
  revert rows. induction sizes as [|n sizes IH]; intros rows; simpl; [done|].
  by rewrite IH.
Qed.

(** Numbering keeps the rows and their order. *)
Lemma snd_number_partition p (rows : list A) :
  snd <$> engine.number_partition p rows = rows.
Proof.
  unfold engine.number_partition. rewrite fmap_imap.
  rewrite (imap_ext _ (const id)) by done.
  rewrite imap_const. apply list_fmap_id.
Qed.

Lemma fst_number_partition p (rows : list A) :
  fst <$> engine.number_partition p rows = engine.row_id p <$> seq 0 (length rows).
Proof.
  unfold engine.number_partition. rewrite fmap_imap.
  rewrite <- (imap_seq_0 rows (engine.row_id p)). by apply imap_ext.
Qed.

Lemma numbered_shift (p0 : nat) (parts : list (list A)) :
  imap ((fun p => engine.number_partition (p0 + p)) ∘ S) parts
  = imap (fun p => engine.number_partition (S p0 + p)) parts.
Proof.
  apply imap_ext. intros p rows _. simpl. by rewrite Nat.add_succ_r.
Qed.

Lemma snd_numbered_from (p0 : nat) (parts : list (list A)) :
  snd <$> concat (imap (fun p => engine.number_partition (p0 + p)) parts)
  = concat parts.
Proof.
  revert p0. induction parts as [|rows parts IH]; intros p0; [done|].
  rewrite imap_cons. simpl. rewrite fmap_app, snd_number_partition.
  by rewrite numbered_shift, IH.
Qed.

Lemma snd_monotonically_increasing_id (parts : list (list A)) :
  snd <$> engine.monotonically_increasing_id parts = concat parts.
Proof. apply (snd_numbered_from 0). Qed.

End engine_facts.

(** *** Uniqueness of the generated identifiers *)

Lemma row_id_inj (p j p' j' : nat) :
  Z.of_nat p < 2 ^ 31 → Z.of_nat j < 2 ^ 33 →
  Z.of_nat p' < 2 ^ 31 → Z.of_nat j' < 2 ^ 33 →
  engine.row_id p j = engine.row_id p' j' → p = p' ∧ j = j'.
Proof.
  unfold engine.row_id, engine.wrap_long. rewrite !Z.shiftl_mul_pow2 by lia.
  intros Hp Hj Hp' Hj' Heq.
  change (2 ^ 31) with 2147483648 in *. change (2 ^ 33) with 8589934592 in *.
  change (2 ^ 63) with 9223372036854775808 in *.
  change (2 ^ 64) with 18446744073709551616 in *.
  assert (Z.of_nat p * 8589934592 + Z.of_nat j
          = Z.of_nat p' * 8589934592 + Z.of_nat j') as Hsum
    by (Z.div_mod_to_equations; lia).
  lia.
Qed.

Lemma elem_of_fst_numbered_from {A} (p0 : nat) (parts : list (list A)) x :
  x ∈ fst <$> concat (imap (fun p => engine.number_partition (p0 + p)) parts) →
  ∃ p j rows, parts !! p = Some rows ∧ (j < length rows)%nat
              ∧ x = engine.row_id (p0 + p) j.
Proof.
  revert p0. induction parts as [|rows parts IH]; intros p0.
  - simpl. by intros ?%elem_of_nil.
  - rewrite imap_cons. simpl. rewrite fmap_app, elem_of_app.
    intros [Hx|Hx].
    + rewrite fst_number_partition in Hx.
      apply list_elem_of_fmap in Hx as (j & -> & Hj).
      apply elem_of_seq in Hj. exists 0%nat, j, rows.
      split_and!; [done|lia|by rewrite Nat.add_0_r].
    + rewrite numbered_shift in Hx. apply IH in Hx as (p & j & rows' & Hp & Hj & ->).
      exists (S p), j, rows'.
      split_and!; [done|done|by rewrite Nat.add_succ_r].
Qed.

Lemma NoDup_fst_numbered_from {A} (p0 : nat) (parts : list (list A)) :
  Z.of_nat (p0 + length parts) <= 2 ^ 31 →
  Forall (fun rows => Z.of_nat (length rows) < 2 ^ 33) parts →
  NoDup (fst <$> concat (imap (fun p => engine.number_partition (p0 + p)) parts)).
Proof.
  revert p0. induction parts as [|rows parts IH]; intros p0 Hp Hrows.
  - simpl. constructor.
  - apply Forall_cons in Hrows as [Hrow Hrows]. simpl in Hp.
    rewrite imap_cons. simpl. rewrite fmap_app. apply NoDup_app. split_and!.
    + rewrite fst_number_partition. apply NoDup_fmap_2_strong; [|apply NoDup_seq].
      intros j j' Hj%elem_of_seq Hj'%elem_of_seq Heq.
      apply row_id_inj in Heq; [tauto|lia..].
    + intros x Hx Hx'. rewrite fst_number_partition in Hx.
      apply list_elem_of_fmap in Hx as (j & -> & Hj%elem_of_seq).
      rewrite numbered_shift in Hx'.
      apply elem_of_fst_numbered_from in Hx' as (p & j' & rows' & Hlook & Hj' & Heq).
      pose proof (lookup_lt_Some _ _ _ Hlook) as Hlt.
      assert (Z.of_nat (length rows') < 2 ^ 33) as Hsmall.
      { eapply Forall_forall in Hrows; [exact Hrows|].
        eapply list_elem_of_lookup_2, Hlook. }
      apply row_id_inj in Heq; lia.
    + rewrite numbered_shift. apply IH; [simpl; lia|done].
Qed.

Lemma NoDup_monotonically_increasing_id {A} (parts : list (list A)) :
  within_id_capacity parts →
  NoDup (fst <$> engine.monotonically_increasing_id parts).
Proof. intros [Hp Hrows]. by apply (NoDup_fst_numbered_from 0). Qed.

(** ** Storage *)

Lemma write_parquet_overwrite p cols t st :
  write_parquet {| path := p; mode := overwrite; partitionBy := cols; data := t |} st
  = Some (put {| path := p; mode := overwrite; partitionBy := cols; data := t |}
              {| partition_columns := cols; contents := t |} st).
Proof. unfold write_parquet. simpl. by destruct (parquet st !! p). Qed.

Lemma path_neq (root a b : string) : a ≠ b → root +:+ a ≠ root +:+ b.
Proof. intros Hab Heq. by apply (inj _) in Heq. Qed.

Lemma table_at_put_eq w d st : table_at (put w d st) (path w) = Some (contents d).
Proof. unfold table_at, put. simpl. by rewrite lookup_insert_eq. Qed.

Lemma table_at_put_ne w d st p :
  path w ≠ p → table_at (put w d st) p = table_at st p.
Proof. intros. unfold table_at, put. simpl. by rewrite lookup_insert_ne. Qed.

Lemma layout_at_put_eq w d st :
  layout_at (put w d st) (path w) = Some (partition_columns d).
Proof. unfold layout_at, put. simpl. by rewrite lookup_insert_eq. Qed.

Lemma layout_at_put_ne w d st p :
  path w ≠ p → layout_at (put w d st) p = layout_at st p.
Proof. intros. unfold layout_at, put. simpl. by rewrite lookup_insert_ne. Qed.

(** ** What the two transforms and [main] leave in storage *)

Lemma process_song_data_spec spark input_data output_data st :
  let df := read_song_json st (input_data +:+ "song_data/*/*/*/*.json") in
  ∃ st', process_song_data spark input_data output_data st = Some st'
    ∧ song_files st' = song_files st
    ∧ log_files st' = log_files st
    ∧ write_log st' = write_log st ++
        [ {| path := output_data +:+ "songs_tables/"; mode := overwrite;
             partitionBy := ["year"; "artist_id"];
             data := songs_rows (songs_query df) |};
          {| path := output_data +:+ "artists_tables/"; mode := overwrite;
             partitionBy := [];
             data := artists_rows (artists_query df) |} ]
    ∧ parquet st' =
        <[output_data +:+ "artists_tables/" :=
            {| partition_columns := []; contents := artists_rows (artists_query df) |}]>
        (<[output_data +:+ "songs_tables/" :=
            {| partition_columns := ["year"; "artist_id"];
               contents := songs_rows (songs_query df) |}]> (parquet st)).
Proof.
  intros df. unfold process_song_data.
  rewrite write_parquet_overwrite. simpl. rewrite write_parquet_overwrite.
  eexists. split; [reflexivity|]. simpl. split_and!; try done.
  by rewrite <- app_assoc.
Qed.

Lemma process_log_data_spec spark input_data output_data st :
  let df := filter_NextSong (read_log_json st (input_data +:+ "log_data/*.json")) in
  let song_df := read_song_json st (input_data +:+ "song_data/*/*/*/*.json") in
  ∃ st', process_log_data spark input_data output_data st = Some st'
    ∧ song_files st' = song_files st
    ∧ log_files st' = log_files st
    ∧ write_log st' = write_log st ++
        [ {| path := output_data +:+ "users_tables/"; mode := overwrite;
             partitionBy := [];
             data := users_rows (users_query df) |};
          {| path := output_data +:+ "time_tables/"; mode := overwrite;
             partitionBy := [];
             data := time_rows (time_query spark df) |};
          {| path := output_data +:+ "songplays_tables/"; mode := overwrite;
             partitionBy := [];
             data := songplays_rows (songplays_query spark df song_df) |} ]
    ∧ parquet st' =
        <[output_data +:+ "songplays_tables/" :=
            {| partition_columns := [];
               contents := songplays_rows (songplays_query spark df song_df) |}]>
        (<[output_data +:+ "time_tables/" :=
            {| partition_columns := []; contents := time_rows (time_query spark df) |}]>
        (<[output_data +:+ "users_tables/" :=
            {| partition_columns := []; contents := users_rows (users_query df) |}]>
         (parquet st))).
Proof.
  intros df song_df. unfold process_log_data.
  rewrite write_parquet_overwrite. simpl. rewrite write_parquet_overwrite. simpl.
  rewrite write_parquet_overwrite.
  eexists. split; [reflexivity|]. simpl. split_and!; try done.
  by rewrite <- !app_assoc.
Qed.

(** Lookups below a common root: the five table names are distinct. *)
Ltac table_names :=
  repeat first
    [ rewrite lookup_insert_eq
    | rewrite lookup_insert_ne by (apply path_neq; discriminate) ].

(** The three tables of [process_log_data], as found in storage once it
    has returned. *)
Lemma process_log_data_tables spark input_data output_data st :
  let df := filter_NextSong (read_log_json st (input_data +:+ "log_data/*.json")) in
  let song_df := read_song_json st (input_data +:+ "song_data/*/*/*/*.json") in
  ∃ st', process_log_data spark input_data output_data st = Some st'
    ∧ table_at st' (output_data +:+ "users_tables/") = Some (users_rows (users_query df))
    ∧ table_at st' (output_data +:+ "time_tables/")
      = Some (time_rows (time_query spark df))
    ∧ table_at st' (output_data +:+ "songplays_tables/")
      = Some (songplays_rows (songplays_query spark df song_df)).
Proof.
  intros df song_df.
  destruct (process_log_data_spec spark input_data output_data st)
    as (st' & Hrun & _ & _ & _ & Hpq).
  exists st'. split; [done|]. unfold table_at. rewrite Hpq.
  split_and!; by table_names.
Qed.

(** [main] runs both transforms on the pair of locations chosen by its
    argument; all five tables are in storage when it returns. *)
Lemma main_tables spark local_data st :
  let input_data := (locations local_data).1 in
  let output_data := (locations local_data).2 in
  let song_df := read_song_json st (input_data +:+ "song_data/*/*/*/*.json") in
  let df := filter_NextSong (read_log_json st (input_data +:+ "log_data/*.json")) in
  ∃ st', main spark local_data st = Some st'
    ∧ song_files st' = song_files st
    ∧ log_files st' = log_files st
    ∧ table_at st' (output_data +:+ "songs_tables/") = Some (songs_rows (songs_query song_df))
    ∧ table_at st' (output_data +:+ "artists_tables/")
      = Some (artists_rows (artists_query song_df))
    ∧ table_at st' (output_data +:+ "users_tables/") = Some (users_rows (users_query df))
    ∧ table_at st' (output_data +:+ "time_tables/")
      = Some (time_rows (time_query spark df))
    ∧ table_at st' (output_data +:+ "songplays_tables/")
      = Some (songplays_rows (songplays_query spark df song_df)).
Proof.
  intros input_data output_data song_df df. unfold main.
  subst input_data output_data song_df df.
  destruct (locations local_data) as [input_data output_data]. simpl.
  destruct (process_song_data_spec spark input_data output_data st)
    as (st1 & -> & Hs1 & Hl1 & _ & Hpq1). simpl.
  destruct (process_log_data_spec spark input_data output_data st1)
    as (st2 & -> & Hs2 & Hl2 & _ & Hpq2).
  exists st2. split; [done|].
  unfold table_at, read_song_json, read_log_json in *.
  rewrite Hpq2, Hpq1, Hs1, Hl1.
  split_and!; try congruence; by table_names.
Qed.

(** ** The join and the fact query *)

Lemma join_on_spec (e : log_json) (c : song_json) :
  join_on e c ↔
  ∃ t a, song e = Some t ∧ title c = Some t ∧ artist e = Some a ∧ artist_name c = Some a.
Proof.
  unfold join_on, sql.holds, sql.and3, sql.eq_string.
  destruct (song e) as [t|], (title c) as [t'|],
           (artist e) as [a|], (artist_name c) as [a'|]; simpl;
    repeat case_bool_decide; simpl;
    (split; [intros Hon; try done; subst; by eauto 10
            |intros (? & ? & ? & ? & ? & ?); by simplify_eq]).
Qed.

Lemma join_on_pair (e : log_json) (c : song_json) :
  join_on e c → (song e, artist e) = (title c, artist_name c).
Proof. intros (t & a & -> & -> & -> & ->)%join_on_spec. done. Qed.

Lemma elem_of_join (log : list log_json) (songs : list song_json) e c :
  (e, c) ∈ join log songs ↔ e ∈ log ∧ c ∈ songs ∧ join_on e c.
Proof.
  unfold join. rewrite list_elem_of_bind. split.
  - intros (l & Hin & Hl). apply list_elem_of_bind in Hin as (s & Hin & Hs).
    apply list_elem_of_singleton in Hin. simplify_eq.
    apply list_elem_of_filter in Hs. tauto.
  - intros (He & Hc & Hon). exists e. split; [|done].
    apply list_elem_of_bind. exists c. split; [by apply list_elem_of_singleton|].
    by apply list_elem_of_filter.
Qed.

Lemma join_cons e (log : list log_json) (songs : list song_json) :
  join (e :: log) songs = (pair e <$> filter (fun s => join_on e s) songs) ++ join log songs.
Proof.
  unfold join. rewrite bind_cons. f_equal.
Qed.

(** An event that no catalog row satisfies the condition with adds nothing
    to the join. *)
Lemma join_cons_unmatched e (log : list log_json) (songs : list song_json) :
  (∀ c, c ∈ songs → ¬ join_on e c) → join (e :: log) songs = join log songs.
Proof.
  intros Hno. rewrite join_cons.
  destruct (filter (fun s => join_on e s) songs) as [|c l] eqn:Hf; [done|].
  assert (c ∈ filter (fun s => join_on e s) songs) as Hc by (rewrite Hf; left).
  apply list_elem_of_filter in Hc as [Hon Hc]. by destruct (Hno c).
Qed.

Lemma elem_of_songplays_query spark (log : list log_json) (songs : list song_json) r :
  r ∈ songplays_query spark log songs →
  ∃ e c, e ∈ log ∧ c ∈ songs ∧ join_on e c
         ∧ r = select_songplays (songplays_tables.songplay_id r, (e, c)).
Proof.
  unfold songplays_query. rewrite elem_of_distinct.
  intros ([id [e c]] & -> & Hin)%list_elem_of_fmap.
  exists e, c. simpl.
  assert ((e, c) ∈ join log songs) as Hjoin.
  { rewrite <- (concat_partition_rows (join_partitions spark) (join log songs)).
    rewrite <- snd_monotonically_increasing_id.
    apply list_elem_of_fmap. by exists (id, (e, c)). }
  apply elem_of_join in Hjoin. tauto.
Qed.

Lemma elem_of_filter_NextSong (log : list log_json) e :
  e ∈ filter_NextSong log ↔ page e = Some "NextSong" ∧ e ∈ log.
Proof.
  unfold filter_NextSong. rewrite list_elem_of_filter.
  unfold is_NextSong, sql.holds, sql.eq_string.
  destruct (page e) as [s|]; simpl; [case_bool_decide; simpl|];
    (split; intros [? ?]; split; try done; congruence).
Qed.

Lemma filter_NextSong_restrict (keep : log_json → Prop) `{!∀ e, Decision (keep e)}
    (log : list log_json) :
  filter_NextSong (filter keep log) = filter keep (filter_NextSong log).
Proof.
  unfold filter_NextSong. induction log as [|e log IH]; [done|].
  rewrite !filter_cons.
  destruct (decide (keep e)), (decide (is_NextSong e));
    rewrite ?filter_cons, ?decide_True, ?decide_False by done; by rewrite IH.
Qed.

Lemma join_restrict (keep : log_json → Prop) `{!∀ e, Decision (keep e)}
    (log : list log_json) (songs : list song_json) :
  (∀ e c, e ∈ log → c ∈ songs → join_on e c → keep e) →
  join (filter keep log) songs = join log songs.
Proof.
  induction log as [|e log IH]; intros Hkeep; [done|].
  rewrite filter_cons.
  assert (join (filter keep log) songs = join log songs) as IH'.
  { apply IH. intros e' c He' Hc. apply Hkeep; [by right|done]. }
  destruct (decide (keep e)) as [Hk|Hk].
  - by rewrite !join_cons, IH'.
  - rewrite IH'. symmetry. apply join_cons_unmatched.
    intros c Hc Hon. apply Hk. eapply Hkeep; [by left|done..].
Qed.

Lemma elem_of_users_query (log : list log_json) u :
  u ∈ users_query log ↔ ∃ e, u = select_users e ∧ e ∈ log.
Proof. unfold users_query. by rewrite elem_of_distinct, list_elem_of_fmap. Qed.

Lemma elem_of_time_query spark (log : list log_json) r :
  r ∈ time_query spark log ↔
  ∃ e t, e ∈ log ∧ start_time_of e = Some t ∧ r = select_time (time_zone spark) (Some t).
Proof.
  unfold time_query. rewrite list_elem_of_fmap. split.
  - intros (start_time & -> & Hin). apply list_elem_of_filter in Hin as [[t ->] Hin].
    apply list_elem_of_fmap in Hin as (e & Ht & He). by exists e, t.
  - intros (e & t & He & Ht & ->). exists (Some t). split; [done|].
    apply list_elem_of_filter. split; [by exists t|].
    apply list_elem_of_fmap. by exists e.
Qed.

(** Deleting the events of other pages first does not change what the
    filter keeps. *)
Lemma filter_NextSong_pages (events : list log_json) :
  filter_NextSong (filter (fun e => page e = Some "NextSong") events)
  = filter_NextSong events.
Proof.
  rewrite filter_NextSong_restrict. unfold filter_NextSong.
  induction events as [|e l IH]; [done|].
  rewrite filter_cons.
  destruct (decide (is_NextSong e)) as [Hn|Hn]; [|done].
  rewrite filter_cons, IH.
  assert (e ∈ filter_NextSong [e]) as [Hpage _]%elem_of_filter_NextSong.
  { unfold filter_NextSong. rewrite filter_cons, decide_True by done. left. }
  by rewrite decide_True.
Qed.

(** ** The claims about [process_log_data] *)

(** C1 (join law).  Every row of the fact table written under
    [songplays_tables/] is selected from an event of the log and a catalog
    row whose (title, artist_name) pair equals the event's (song, artist)
    pair.  Events without such a catalog row produce no fact row: when no
    event has one the table is empty, and deleting every such event from the
    input leaves the written fact table exactly as it was. *)
Theorem C1_fact_rows_match_the_catalog spark input_data output_data st :
  let events := read_log_json st (input_data +:+ "log_data/*.json") in
  let catalog := read_song_json st (input_data +:+ "song_data/*/*/*/*.json") in
  ∃ st' fact,
    process_log_data spark input_data output_data st = Some st'
    ∧ table_at st' (output_data +:+ "songplays_tables/") = Some (songplays_rows fact)
    ∧ (∀ r, r ∈ fact →
         ∃ e c, e ∈ events ∧ c ∈ catalog
                ∧ (song e, artist e) = (title c, artist_name c)
                ∧ r = select_songplays (songplays_tables.songplay_id r, (e, c)))
    ∧ ((∀ e, e ∈ events → ¬ has_catalog_match catalog e) → fact = [])
    ∧ (∃ st'',
         process_log_data spark input_data output_data
           (restrict_log (has_catalog_match catalog) st) = Some st''
         ∧ table_at st'' (output_data +:+ "songplays_tables/")
           = Some (songplays_rows fact)).
Proof.
  intros events catalog.
  destruct (process_log_data_tables spark input_data output_data st)
    as (st' & Hrun & _ & _ & Hfact).
  fold events catalog in Hfact.
  exists st', (songplays_query spark (filter_NextSong events) catalog).
  assert (∀ r, r ∈ songplays_query spark (filter_NextSong events) catalog →
            ∃ e c, e ∈ events ∧ c ∈ catalog
                   ∧ (song e, artist e) = (title c, artist_name c)
                   ∧ r = select_songplays (songplays_tables.songplay_id r, (e, c)))
    as Hrows.
  { intros r (e & c & He & Hc & Hon & Hr)%elem_of_songplays_query.
    apply elem_of_filter_NextSong in He as [_ He].
    exists e, c. split_and!; [done|done|by apply join_on_pair|done]. }
  split_and!; [done|done|exact Hrows| |].
  - intros Hnone.
    destruct (songplays_query spark (filter_NextSong events) catalog) as [|r fact];
      [done|].
    destruct (Hrows r) as (e & c & He & Hc & Hpair & _); [by left|].
    destruct (Hnone e He). apply Exists_exists. by exists c.
  - destruct (process_log_data_tables spark input_data output_data
                (restrict_log (has_catalog_match catalog) st))
      as (st'' & Hrun' & _ & _ & Hfact').
    exists st''. split; [done|]. rewrite Hfact'. simpl.
    unfold read_log_json, read_song_json. simpl. fold events catalog.
    do 2 f_equal. unfold songplays_query.
    rewrite filter_NextSong_restrict, join_restrict; [done|].
    intros e c _ Hc Hon. apply Exists_exists. exists c.
    split; [done|by apply join_on_pair].
Qed.

(** C2 (filtering law).  Every row of the users table and every row of the
    fact table comes from an event whose [page] is exactly the string
    NextSong.  The filter stands before everything else: deleting all other
    events from the input leaves the three tables that [process_log_data]
    writes exactly as they were. *)
Theorem C2_only_NextSong_events_are_used spark input_data output_data st :
  let events := read_log_json st (input_data +:+ "log_data/*.json") in
  let catalog := read_song_json st (input_data +:+ "song_data/*/*/*/*.json") in
  ∃ st' users fact,
    process_log_data spark input_data output_data st = Some st'
    ∧ table_at st' (output_data +:+ "users_tables/") = Some (users_rows users)
    ∧ table_at st' (output_data +:+ "songplays_tables/") = Some (songplays_rows fact)
    ∧ (∀ u, u ∈ users →
         ∃ e, e ∈ events ∧ page e = Some "NextSong" ∧ u = select_users e)
    ∧ (∀ r, r ∈ fact →
         ∃ e c, e ∈ events ∧ page e = Some "NextSong" ∧ c ∈ catalog
                ∧ r = select_songplays (songplays_tables.songplay_id r, (e, c)))
    ∧ (∃ st'',
         process_log_data spark input_data output_data
           (restrict_log (fun e => page e = Some "NextSong") st) = Some st''
         ∧ table_at st'' (output_data +:+ "users_tables/") = Some (users_rows users)
         ∧ table_at st'' (output_data +:+ "songplays_tables/")
           = Some (songplays_rows fact)
         ∧ table_at st'' (output_data +:+ "time_tables/")
           = table_at st' (output_data +:+ "time_tables/")).
Proof.
  intros events catalog.
  destruct (process_log_data_tables spark input_data output_data st)
    as (st' & Hrun & Husers & Htime & Hfact).
  fold events catalog in Husers, Htime, Hfact.
  exists st', (users_query (filter_NextSong events)),
    (songplays_query spark (filter_NextSong events) catalog).
  split_and!; [done|done|done| | |].
  - intros u (e & -> & [Hpage He]%elem_of_filter_NextSong)%elem_of_users_query.
    by exists e.
  - intros r (e & c & [Hpage He]%elem_of_filter_NextSong & Hc & _ & Hr)
             %elem_of_songplays_query.
    by exists e, c.
  - destruct (process_log_data_tables spark input_data output_data
                (restrict_log (fun e => page e = Some "NextSong") st))
      as (st'' & Hrun' & Husers' & Htime' & Hfact').
    exists st''. split; [done|].
    rewrite Husers', Htime', Hfact', Htime.
    unfold read_log_json, read_song_json. simpl.
    by rewrite filter_NextSong_pages.
Qed.

(** C3 (null-timestamp law).  No row of the time table written under
    [time_tables/] has a NULL [start_time], whatever the events hold in
    [ts]; an event without a usable [ts] has a NULL start time and is one of
    the rows the query drops. *)
Theorem C3_time_table_start_time_not_null spark input_data output_data st :
  ∃ st' rows,
    process_log_data spark input_data output_data st = Some st'
    ∧ table_at st' (output_data +:+ "time_tables/") = Some (time_rows rows)
    ∧ (∀ r, r ∈ rows → time_tables.start_time r ≠ None)
    ∧ (∀ e, ts e = None → start_time_of e = None).
Proof.
  destruct (process_log_data_tables spark input_data output_data st)
    as (st' & Hrun & _ & Htime & _).
  eexists st', _. split_and!; [done|done| |].
  - by intros r (e & t & _ & _ & ->)%elem_of_time_query.
  - intros e He. unfold start_time_of. by rewrite He.
Qed.

(** C7 (the duplicated column).  In every row of the time table the
    [weekday] column equals the [day] column, and both are the day of the
    week of the row's [start_time]. *)
Theorem C7_time_table_weekday_duplicates_day spark input_data output_data st :
  ∃ st' rows,
    process_log_data spark input_data output_data st = Some st'
    ∧ table_at st' (output_data +:+ "time_tables/") = Some (time_rows rows)
    ∧ (∀ r, r ∈ rows →
         time_tables.weekday r = time_tables.day r
         ∧ time_tables.day r
           = sql.dayofweek (time_zone spark) (time_tables.start_time r)).
Proof.
  destruct (process_log_data_tables spark input_data output_data st)
    as (st' & Hrun & _ & Htime & _).
  eexists st', _. split_and!; [done|done|].
  by intros r (e & t & _ & _ & ->)%elem_of_time_query.
Qed.

(** ** The claims about [main] *)

Lemma main_run_on spark local_data st :
  main spark local_data st = run_on spark (locations local_data) st.
Proof. unfold main, run_on. by destruct (locations local_data). Qed.

(** C8 (output layout).  A run makes exactly five writes, in this order:
    [songs_tables/], [artists_tables/], [users_tables/], [time_tables/] and
    [songplays_tables/] under the output root, each in overwrite mode; the
    songs table is partitioned by [year] then [artist_id] and the other
    four are not partitioned.  The directories in storage have that layout
    when the run returns. *)
Theorem C8_five_overwriting_writes spark local_data st :
  let output_data := (locations local_data).2 in
  ∃ st' calls,
    main spark local_data st = Some st'
    ∧ write_log st' = write_log st ++ calls
    ∧ target <$> calls =
        [ (output_data +:+ "songs_tables/", overwrite, ["year"; "artist_id"]);
          (output_data +:+ "artists_tables/", overwrite, []);
          (output_data +:+ "users_tables/", overwrite, []);
          (output_data +:+ "time_tables/", overwrite, []);
          (output_data +:+ "songplays_tables/", overwrite, []) ]
    ∧ layout_at st' (output_data +:+ "songs_tables/") = Some ["year"; "artist_id"]
    ∧ layout_at st' (output_data +:+ "artists_tables/") = Some []
    ∧ layout_at st' (output_data +:+ "users_tables/") = Some []
    ∧ layout_at st' (output_data +:+ "time_tables/") = Some []
    ∧ layout_at st' (output_data +:+ "songplays_tables/") = Some [].
Proof.
  intros output_data. subst output_data. unfold main.
  destruct (locations local_data) as [input_data output_data]. simpl.
  destruct (process_song_data_spec spark input_data output_data st)
    as (st1 & -> & _ & _ & Hlog1 & Hpq1). simpl.
  destruct (process_log_data_spec spark input_data output_data st1)
    as (st2 & -> & _ & _ & Hlog2 & Hpq2).
  eexists st2, _. split; [done|]. split.
  { rewrite Hlog2, Hlog1, <- app_assoc. reflexivity. }
  split; [done|].
  unfold layout_at. rewrite Hpq2, Hpq1. split_and!; by table_names.
Qed.

(** C10 (the mode test).  [main] compares its argument with [True] by
    [==]: it works on the local pair of locations exactly when that
    comparison holds, and on the remote pair for every other value.  So
    [True] and [1] select the local pair, while the string true, although
    truthy, selects the remote one. *)
Theorem C10_mode_is_equality_with_True spark local_data st :
  (py_eq local_data (PyBool true) = true ↔ locations local_data = local_locations)
  ∧ (py_eq local_data (PyBool true) = false ↔ locations local_data = remote_locations)
  ∧ main spark local_data st
    = run_on spark (if py_eq local_data (PyBool true)
                    then local_locations else remote_locations) st
  ∧ main spark (PyBool true) st = run_on spark local_locations st
  ∧ main spark (PyInt 1) st = run_on spark local_locations st
  ∧ py_truthy (PyStr "true") = true
  ∧ main spark (PyStr "true") st = run_on spark remote_locations st.
Proof.
  split_and!; try (by rewrite main_run_on).
  - unfold locations. by destruct (py_eq local_data (PyBool true)).
  - unfold locations. by destruct (py_eq local_data (PyBool true)).
  - reflexivity.
Qed.

(** ** The example scenario *)

Lemma start_time_of_event_7 : start_time_of event_7 = Some 1541440000000000.
Proof. vm_compute. reflexivity. Qed.

(** A relation of one row is numbered as one row, wherever the engine
    puts it. *)
Lemma numbered_singleton {A} sizes (x : A) :
  ∃ id, engine.monotonically_increasing_id (engine.partition_rows sizes [x]) = [(id, x)].
Proof.
  pose proof (snd_monotonically_increasing_id (engine.partition_rows sizes [x])) as Hsnd.
  rewrite concat_partition_rows in Hsnd.
  destruct (engine.monotonically_increasing_id _) as [|[id y] [|z l]];
    simplify_eq/=. by exists id.
Qed.

(** The tables of the example scenario, for a catalog row with whatever
    location. *)
Lemma example_tables spark local_data st (location : field string) :
  let input_data := (locations local_data).1 in
  let output_data := (locations local_data).2 in
  read_song_json st (input_data +:+ "song_data/*/*/*/*.json")
  = [song_row (catalog_S1_object location)] →
  read_log_json st (input_data +:+ "log_data/*.json") = [log_row event_7_object] →
  ∃ st' id,
    main spark local_data st = Some st'
    ∧ table_at st' (output_data +:+ "songs_tables/") = Some (songs_rows
        [ {| songs_tables.song_id := Some "S1"; songs_tables.title := Some "Song A";
             songs_tables.artist_id := Some "E1"; songs_tables.year := Some 2000;
             songs_tables.duration := Some (of_long 200) |} ])
    ∧ table_at st' (output_data +:+ "artists_tables/") = Some (artists_rows
        [ {| artists_tables.artist_id := Some "E1";
             artists_tables.artist_name := Some "Band A";
             artists_tables.artist_location := column_value location;
             artists_tables.artist_latitude := Some (of_long 1);
             artists_tables.artist_longitude := Some (of_long 1) |} ])
    ∧ table_at st' (output_data +:+ "users_tables/") = Some (users_rows
        [ {| users_tables.userId := Some "7"; users_tables.firstName := Some "Jo";
             users_tables.lastName := Some "Do"; users_tables.gender := Some "F";
             users_tables.level := Some "free" |} ])
    ∧ table_at st' (output_data +:+ "time_tables/") = Some (time_rows
        [ select_time (time_zone spark) (Some 1541440000000000) ])
    ∧ table_at st' (output_data +:+ "songplays_tables/") = Some (songplays_rows
        [ {| songplays_tables.songplay_id := id;
             songplays_tables.start_time := Some 1541440000000000;
             songplays_tables.userId := Some "7";
             songplays_tables.level := Some "free";
             songplays_tables.song_id := Some "S1";
             songplays_tables.artist_id := Some "E1";
             songplays_tables.sessionId := Some 1;
             songplays_tables.artist_location := column_value location;
             songplays_tables.userAgent := Some "UA" |} ]).
Proof.
  intros input_data output_data Hsongs Hlog.
  destruct (main_tables spark local_data st)
    as (st' & Hrun & _ & _ & Hs & Ha & Hu & Ht & Hf).
  fold input_data output_data in Hs, Ha, Hu, Ht, Hf.
  rewrite Hsongs in Hs, Ha, Hf. rewrite Hlog in Hu, Ht, Hf.
  change (log_row event_7_object) with event_7 in Hu, Ht, Hf.
  assert (filter_NextSong [event_7] = [event_7]) as Hkeep by reflexivity.
  rewrite Hkeep in Hu, Ht, Hf.
  destruct (numbered_singleton (join_partitions spark)
              (event_7, song_row (catalog_S1_object location))) as [id Hid].
  exists st', id. split_and!; [done|exact Hs|exact Ha|exact Hu| |].
  - rewrite Ht. unfold time_query. simpl. by rewrite start_time_of_event_7.
  - rewrite Hf. unfold songplays_query.
    change (join [event_7] [song_row (catalog_S1_object location)])
      with [(event_7, song_row (catalog_S1_object location))].
    rewrite Hid. simpl. by rewrite start_time_of_event_7.
Qed.

Lemma time_row_of_event_7 (tz : sql.timestamp → Z) :
  tz 1541440000000000 = 0 →
  select_time tz (Some 1541440000000000)
  = {| time_tables.start_time := Some 1541440000000000;
       time_tables.hour := Some 17; time_tables.day := Some 2;
       time_tables.week := Some 45; time_tables.month := Some 11;
       time_tables.year := Some 2018; time_tables.weekday := Some 2 |}.
Proof.
  intros Hutc. unfold select_time, sql.hour, sql.dayofweek, sql.weekofyear,
    sql.month, sql.year. simpl.
  unfold sql.hour_of, sql.dayofweek_of, sql.weekofyear_of, sql.month_of,
    sql.year_of, sql.local_days, sql.local_seconds.
  rewrite Hutc. reflexivity.
Qed.

(** ** The fact table is not deduplicated *)

Lemma without_id_select (r : Z * (log_json * song_json)) :
  without_id (select_songplays r) = fact_columns r.2.
Proof. by destruct r as [id [e c]]. Qed.

Lemma songplay_id_select (r : Z * (log_json * song_json)) :
  songplays_tables.songplay_id (select_songplays r) = r.1.
Proof. by destruct r as [id [e c]]. Qed.

(** Within the engine's capacity the identifiers differ from row to row,
    so [DISTINCT] finds no two equal rows. *)
Lemma songplays_query_keeps_all spark (log : list log_json) (songs : list song_json) :
  let joined := engine.partition_rows (join_partitions spark) (join log songs) in
  within_id_capacity joined →
  songplays_query spark log songs
  = select_songplays <$> engine.monotonically_increasing_id joined.
Proof.
  intros joined Hcap. unfold songplays_query. fold joined.
  apply distinct_NoDup.
  apply (NoDup_fmap_1 songplays_tables.songplay_id).
  rewrite <- list_fmap_compose.
  rewrite (list_fmap_ext _ fst (engine.monotonically_increasing_id joined))
    by (intros _ r _; apply songplay_id_select).
  by apply NoDup_monotonically_increasing_id.
Qed.

Lemma without_id_songplays_query_elem spark (log : list log_json)
    (songs : list song_json) d :
  d ∈ without_id <$> songplays_query spark log songs
  ↔ d ∈ fact_columns <$> join log songs.
Proof.
  rewrite !list_elem_of_fmap. split.
  - intros (r & -> & Hr). unfold songplays_query in Hr.
    rewrite elem_of_distinct in Hr.
    apply list_elem_of_fmap in Hr as (x & -> & Hx).
    exists x.2. split; [apply without_id_select|].
    rewrite <- (concat_partition_rows (join_partitions spark) (join log songs)).
    rewrite <- snd_monotonically_increasing_id.
    apply list_elem_of_fmap. by exists x.
  - intros (p & -> & Hp).
    rewrite <- (concat_partition_rows (join_partitions spark) (join log songs)) in Hp.
    rewrite <- snd_monotonically_increasing_id in Hp.
    apply list_elem_of_fmap in Hp as (x & -> & Hx).
    exists (select_songplays x). split; [symmetry; apply without_id_select|].
    unfold songplays_query. rewrite elem_of_distinct.
    apply list_elem_of_fmap. by exists x.
Qed.

Lemma length_join (log : list log_json) (songs : list song_json) :
  length (join log songs) = sum_list (matches songs <$> log).
Proof.
  induction log as [|e log IH]; [done|].
  rewrite join_cons, length_app, length_fmap, IH. done.
Qed.

(** C9 (no deduplication of fact rows).  Every row of the join gets its
    own identifier before [DISTINCT] is applied, so, within the capacity
    of the identifier, [DISTINCT] removes nothing: the identifiers in the
    fact table are pairwise different, the other columns of the table are
    those of the joined pairs, one row per pair and in the same order, and
    the number of rows is the sum over the NextSong events of the number of
    catalog rows each one joins with.  Two identical events, or one event
    that joins two catalog rows, give two fact rows. *)
Theorem C9_distinct_removes_no_fact_row spark input_data output_data st :
  let events :=
    filter_NextSong (read_log_json st (input_data +:+ "log_data/*.json")) in
  let catalog := read_song_json st (input_data +:+ "song_data/*/*/*/*.json") in
  run_within_id_capacity spark input_data st →
  ∃ st' fact,
    process_log_data spark input_data output_data st = Some st'
    ∧ table_at st' (output_data +:+ "songplays_tables/") = Some (songplays_rows fact)
    ∧ NoDup (songplays_tables.songplay_id <$> fact)
    ∧ without_id <$> fact = fact_columns <$> join events catalog
    ∧ length fact = sum_list (matches catalog <$> events).
Proof.
  intros events catalog Hcap.
  destruct (process_log_data_tables spark input_data output_data st)
    as (st' & Hrun & _ & _ & Hfact).
  fold events catalog in Hfact.
  exists st', (songplays_query spark events catalog).
  split; [done|]. split; [done|].
  rewrite songplays_query_keeps_all by done.
  set (numbered := engine.monotonically_increasing_id _).
  assert (snd <$> numbered = join events catalog) as Hsnd.
  { unfold numbered.
    by rewrite snd_monotonically_increasing_id, concat_partition_rows. }
  split_and!.
  - rewrite <- list_fmap_compose.
    rewrite (list_fmap_ext _ fst numbered)
      by (intros _ r _; apply songplay_id_select).
    by apply NoDup_monotonically_increasing_id.
  - rewrite <- Hsnd, <- !list_fmap_compose. apply list_fmap_ext.
    intros _ r _. apply without_id_select.
  - rewrite <- length_join, <- Hsnd. by rewrite !length_fmap.
Qed.

(** ** Running the job again *)

Lemma bind_Permutation_pointwise {A B} (f g : A → list B) (l : list A) :
  (∀ x, f x ≡ₚ g x) → l ≫= f ≡ₚ l ≫= g.
Proof.
  intros Hfg. induction l as [|x l IH]; [done|].
  rewrite !bind_cons. by rewrite (Hfg x), IH.
Qed.

Lemma join_Permutation (l1 l2 : list log_json) (s1 s2 : list song_json) :
  l1 ≡ₚ l2 → s1 ≡ₚ s2 → join l1 s1 ≡ₚ join l2 s2.
Proof.
  intros Hl Hs. unfold join. rewrite Hl.
  apply bind_Permutation_pointwise. intros e. by rewrite Hs.
Qed.

Lemma filter_NextSong_Permutation (l1 l2 : list log_json) :
  l1 ≡ₚ l2 → filter_NextSong l1 ≡ₚ filter_NextSong l2.
Proof. intros Hl. unfold filter_NextSong. by rewrite Hl. Qed.

Lemma select_time_ext (tz1 tz2 : sql.timestamp → Z) t :
  (∀ x, tz1 x = tz2 x) → select_time tz1 t = select_time tz2 t.
Proof.
  intros Htz. destruct t as [t|]; [|done].
  unfold select_time, sql.hour, sql.dayofweek, sql.weekofyear, sql.month, sql.year.
  simpl.
  unfold sql.hour_of, sql.dayofweek_of, sql.weekofyear_of, sql.month_of,
    sql.year_of, sql.local_days, sql.local_seconds.
  by rewrite Htz.
Qed.

Lemma time_query_Permutation spark1 spark2 (l1 l2 : list log_json) :
  (∀ t, time_zone spark1 t = time_zone spark2 t) →
  l1 ≡ₚ l2 → time_query spark1 l1 ≡ₚ time_query spark2 l2.
Proof.
  intros Htz Hl. unfold time_query. rewrite Hl.
  erewrite list_fmap_ext; [reflexivity|].
  intros _ t _. by apply select_time_ext.
Qed.

(** C5 (idempotence).  Run the job once; run it again, by another session
    with the same time zone, on a storage that holds the same input (the
    storage the first run left is one: the run does not touch its input).
    The songs, artists, users and time tables of the two runs have the same
    rows the same number of times, and the fact tables have the same rows
    once [songplay_id] is projected away; when both runs stay within the
    capacity of the identifier, those projected rows also occur the same
    number of times.  Only [songplay_id] may differ. *)
Theorem C5_running_twice_gives_the_same_rows spark1 spark2 local_data st :
  let input_data := (locations local_data).1 in
  let output_data := (locations local_data).2 in
  (∀ t, time_zone spark1 t = time_zone spark2 t) →
  ∃ r1,
    main spark1 local_data st = Some r1
    ∧ same_input r1 r1
    ∧ ∀ st2, same_input r1 st2 →
        ∃ r2, main spark2 local_data st2 = Some r2
          ∧ same_table r1 r2 (output_data +:+ "songs_tables/")
          ∧ same_table r1 r2 (output_data +:+ "artists_tables/")
          ∧ same_table r1 r2 (output_data +:+ "users_tables/")
          ∧ same_table r1 r2 (output_data +:+ "time_tables/")
          ∧ same_table r1 r2 (output_data +:+ "songplays_tables/")
          ∧ (run_within_id_capacity spark1 input_data st →
             run_within_id_capacity spark2 input_data st2 →
             ∃ a b,
               table_at r1 (output_data +:+ "songplays_tables/")
                 = Some (songplays_rows a)
               ∧ table_at r2 (output_data +:+ "songplays_tables/")
                 = Some (songplays_rows b)
               ∧ without_id <$> a ≡ₚ without_id <$> b).
Proof.
  intros input_data output_data Htz.
  destruct (main_tables spark1 local_data st)
    as (r1 & Hrun1 & Hsf & Hlf & Hs1 & Ha1 & Hu1 & Ht1 & Hf1).
  fold input_data output_data in Hs1, Ha1, Hu1, Ht1, Hf1.
  exists r1. split; [done|]. split; [done|].
  intros st2 Hsame.
  destruct (main_tables spark2 local_data st2)
    as (r2 & Hrun2 & _ & _ & Hs2 & Ha2 & Hu2 & Ht2 & Hf2).
  fold input_data output_data in Hs2, Ha2, Hu2, Ht2, Hf2.
  assert (read_song_json st (input_data +:+ "song_data/*/*/*/*.json")
          ≡ₚ read_song_json st2 (input_data +:+ "song_data/*/*/*/*.json")) as Hsongs.
  { unfold read_song_json. rewrite <- Hsf. apply Hsame. }
  assert (filter_NextSong (read_log_json st (input_data +:+ "log_data/*.json"))
          ≡ₚ filter_NextSong (read_log_json st2 (input_data +:+ "log_data/*.json")))
    as Hlog.
  { apply filter_NextSong_Permutation. unfold read_log_json. rewrite <- Hlf.
    apply Hsame. }
  exists r2. split; [done|]. unfold same_table. split_and!.
  - eexists _, _. split_and!; [done..|]. simpl. unfold songs_query.
    apply distinct_Permutation. by rewrite Hsongs.
  - eexists _, _. split_and!; [done..|]. simpl. unfold artists_query.
    apply distinct_Permutation. by rewrite Hsongs.
  - eexists _, _. split_and!; [done..|]. simpl. unfold users_query.
    apply distinct_Permutation. by rewrite Hlog.
  - eexists _, _. split_and!; [done..|]. simpl. by apply time_query_Permutation.
  - eexists _, _. split_and!; [done..|]. simpl. intros d.
    rewrite !without_id_songplays_query_elem.
    by rewrite (join_Permutation _ _ _ _ Hlog Hsongs).
  - intros Hcap1 Hcap2. eexists _, _. split_and!; [done..|].
    rewrite !songplays_query_keeps_all by done.
    rewrite <- !list_fmap_compose.
    rewrite !(list_fmap_ext (without_id ∘ select_songplays) (fact_columns ∘ snd))
      by (intros _ r _; apply without_id_select).
    rewrite !list_fmap_compose, !snd_monotonically_increasing_id,
      !concat_partition_rows.
    by rewrite (join_Permutation _ _ _ _ Hlog Hsongs).
Qed.

(** ** The derived timestamp *)

(** C4, as stated, fails.  The query divides with [/], which is the
    division of DOUBLEs, so the milliseconds of [ts] are kept: the event
    with [ts = 1541440000123] gets the start time 1541440000.123 s in the
    time table, not the 1541440000 s that integer division by 1000 gives. *)
Lemma C4_counterexample_milliseconds_are_kept :
  ∃ st' r,
    process_log_data session_utc "data/" "sparkify_data_lake/"
      (local_storage [catalog_S1] [event_7_later]) = Some st'
    ∧ table_at st' "sparkify_data_lake/time_tables/" = Some (time_rows [r])
    ∧ ts event_7_later = Some 1541440000123
    ∧ time_tables.start_time r = Some 1541440000123000
    ∧ time_tables.start_time r
      ≠ Some (1541440000123 / 1000 * sql.MICROS_PER_SECOND).
Proof.
  destruct (process_log_data_tables session_utc "data/" "sparkify_data_lake/"
              (local_storage [catalog_S1] [event_7_later]))
    as (st' & Hrun & _ & Htime & _).
  exists st', (select_time (fun _ => 0) (start_time_of event_7_later)).
  split; [exact Hrun|]. split; [exact Htime|].
  assert (start_time_of event_7_later = Some 1541440000123000) as ->
    by (vm_compute; reflexivity).
  split_and!; [reflexivity|reflexivity|discriminate].
Qed.

(** The quotient of 1110132815699 by 1000 is not a binary64 number, and
    the product of the nearest one by 10^6 falls just below the
    microsecond: one microsecond is lost. *)
Example start_time_one_microsecond_short :
  sql.to_timestamp (sql.divide (Some 1110132815699) 1000) = Some 1110132815698999.
Proof. vm_compute. reflexivity. Qed.

(** C4, amended.  The start time is the cast to TIMESTAMP of the DOUBLE
    quotient [ts / 1000], so the milliseconds of [ts] are kept and not
    truncated.  Every row of the time table comes from a NextSong event
    with a [ts]; every NextSong event whose derived start time is not NULL
    has its row; and every NextSong event whose [ts] is within 2^52
    microseconds of the epoch (some 142 years either way) is one of these:
    the start time of its row, in microseconds, is [1000 * ts] or one
    microsecond nearer to the epoch (binary64 rounding), its whole seconds
    are [ts / 1000] rounded down, and it is exactly [1000 * ts] when [ts] is
    a whole number of seconds. *)
Theorem C4_start_time_keeps_the_milliseconds spark input_data output_data st :
  let events := read_log_json st (input_data +:+ "log_data/*.json") in
  ∃ st' rows,
    process_log_data spark input_data output_data st = Some st'
    ∧ table_at st' (output_data +:+ "time_tables/") = Some (time_rows rows)
    ∧ (∀ r, r ∈ rows →
         ∃ e z t, e ∈ events ∧ page e = Some "NextSong" ∧ ts e = Some z
                  ∧ sql.to_timestamp (sql.divide (Some z) 1000) = Some t
                  ∧ time_tables.start_time r = Some t
                  ∧ (Z.abs (1000 * z) < 2 ^ 52 → milliseconds_kept z t))
    ∧ (∀ e t, e ∈ events → page e = Some "NextSong" →
         sql.to_timestamp (sql.divide (ts e) 1000) = Some t →
         ∃ r, r ∈ rows ∧ time_tables.start_time r = Some t)
    ∧ (∀ e z, e ∈ events → page e = Some "NextSong" → ts e = Some z →
         Z.abs (1000 * z) < 2 ^ 52 →
         ∃ r t, r ∈ rows ∧ time_tables.start_time r = Some t
                ∧ milliseconds_kept z t).
Proof.
  intros events.
  destruct (process_log_data_tables spark input_data output_data st)
    as (st' & Hrun & _ & Htime & _).
  fold events in Htime.
  exists st', (time_query spark (filter_NextSong events)).
  split_and!; [done|done| | |].
  - intros r (e & t & [Hpage He]%elem_of_filter_NextSong & Ht & ->)%elem_of_time_query.
    unfold start_time_of in Ht.
    destruct (ts e) as [z|] eqn:Hts; [|discriminate Ht].
    exists e, z, t. split_and!; [done|done|done|done|done|].
    intros Hz. destruct (start_time_bounds z Hz) as (t' & Ht' & ? & ? & ? & ?).
    assert (t' = t) as -> by congruence. by split_and!.
  - intros e t He Hpage Ht.
    exists (select_time (time_zone spark) (Some t)). split; [|done].
    apply elem_of_time_query. exists e, t.
    split_and!; [by apply elem_of_filter_NextSong|done|done].
  - intros e z He Hpage Hts Hz.
    destruct (start_time_bounds z Hz) as (t & Ht & ? & ? & ? & ?).
    exists (select_time (time_zone spark) (Some t)), t.
    split_and!; [|done|by split_and!].
    apply elem_of_time_query. exists e, t.
    split_and!; [by apply elem_of_filter_NextSong| |done].
    unfold start_time_of. by rewrite Hts.
Qed.

(** ** The properties at the example input *)

(** The two sessions number the same joined row differently. *)
Example songplay_id_depends_on_the_run :
  songplays_tables.songplay_id
    <$> songplays_query session_utc [event_7] [catalog_S1] = [0]
  ∧ songplays_tables.songplay_id
    <$> songplays_query session_utc_two_partitions [event_7] [catalog_S1]
    = [8589934592].
Proof. split; vm_compute; reflexivity. Qed.

Lemma C5_running_twice_gives_the_same_rows_witness :
  ∃ r1 r2,
    main session_utc (PyBool true) (local_storage [catalog_S1] [event_7]) = Some r1
    ∧ main session_utc_two_partitions (PyBool true) r1 = Some r2
    ∧ same_table r1 r2 "sparkify_data_lake/songs_tables/"
    ∧ same_table r1 r2 "sparkify_data_lake/artists_tables/"
    ∧ same_table r1 r2 "sparkify_data_lake/users_tables/"
    ∧ same_table r1 r2 "sparkify_data_lake/time_tables/"
    ∧ same_table r1 r2 "sparkify_data_lake/songplays_tables/".
Proof.
  destruct (C5_running_twice_gives_the_same_rows session_utc
              session_utc_two_partitions (PyBool true)
              (local_storage [catalog_S1] [event_7]))
    as (r1 & Hrun1 & Hsame & Hnext).
  - intros t. reflexivity.
  - destruct (Hnext r1 Hsame) as (r2 & Hrun2 & Hs & Ha & Hu & Ht & Hf & _).
    exists r1, r2. repeat (split; [assumption|]). assumption.
Defined.

Lemma C9_distinct_removes_no_fact_row_witness :
  run_within_id_capacity session_utc "data/"
    (local_storage [catalog_S1] [event_7; event_7])
  ∧ ∃ st' fact,
      process_log_data session_utc "data/" "sparkify_data_lake/"
        (local_storage [catalog_S1] [event_7; event_7]) = Some st'
      ∧ table_at st' "sparkify_data_lake/songplays_tables/"
        = Some (songplays_rows fact)
      ∧ length fact = 2%nat
      ∧ without_id <$> fact
        = [fact_columns (event_7, catalog_S1); fact_columns (event_7, catalog_S1)].
Proof.
  assert (run_within_id_capacity session_utc "data/"
            (local_storage [catalog_S1] [event_7; event_7])) as Hcap.
  { split; [vm_compute; discriminate|].
    repeat constructor; vm_compute; reflexivity. }
  split; [exact Hcap|].
  destruct (C9_distinct_removes_no_fact_row session_utc "data/"
              "sparkify_data_lake/" (local_storage [catalog_S1] [event_7; event_7])
              Hcap)
    as (st' & fact & Hrun & Htable & _ & Hcols & Hlen).
  exists st', fact. split; [exact Hrun|]. split; [exact Htable|].
  split; [exact Hlen|exact Hcols].
Defined.

(** * Properties of the script on JSON files *)

(** ** Column resolution *)

Lemma resolves_spec (schema names : list string) :
  resolves schema names = true ↔ ∀ name, name ∈ names → name ∈ schema.
Proof.
  unfold resolves. rewrite forallb_forall. split.
  - intros H name Hin. apply list_elem_of_In in Hin.
    by apply H, bool_decide_eq_true in Hin.
  - intros H name Hin. apply bool_decide_eq_true, H. by apply list_elem_of_In.
Qed.

Lemma resolves_subseteq (schema names names' : list string) :
  names' ⊆ names → resolves schema names = true → resolves schema names' = true.
Proof. rewrite !resolves_spec. intros Hsub H name Hin. by apply H, Hsub. Qed.

(** Membership in a list of names that is written out, and inclusion of
    one such list in another. *)
Ltac name_listed := solve [repeat constructor].

Ltac names_in :=
  let H := fresh in
  intros ? H;
  repeat (apply elem_of_cons in H as [->|H]; [name_listed|]);
  by apply elem_of_nil in H.

(** ** The transforms, statement by statement *)

Lemma mount_put fs w d st : mount fs (put w d st) = put w d (mount fs st).
Proof. reflexivity. Qed.

Lemma etl_process_song_data_spec spark input_data output_data fs st :
  let schema := song_schema (song_objects fs (input_data +:+ "song_data/*/*/*/*.json")) in
  let df := read_song_json (mount fs st) (input_data +:+ "song_data/*/*/*/*.json") in
  let songs := {| path := output_data +:+ "songs_tables/"; mode := overwrite;
                  partitionBy := ["year"; "artist_id"];
                  data := songs_rows (songs_query df) |} in
  let artists := {| path := output_data +:+ "artists_tables/"; mode := overwrite;
                    partitionBy := [];
                    data := artists_rows (artists_query df) |} in
  let st1 := put songs {| partition_columns := ["year"; "artist_id"];
                          contents := songs_rows (songs_query df) |} (mount fs st) in
  etl.process_song_data spark input_data output_data fs st =
    if resolves schema ["song_id"; "title"; "artist_id"; "year"; "duration"] then
      if resolves schema ["artist_id"; "artist_name"; "artist_location";
                          "artist_latitude"; "artist_longitude"] then
        returned (put artists {| partition_columns := [];
                                 contents := artists_rows (artists_query df) |} st1)
      else raised st1
    else raised (mount fs st).
Proof.
  intros schema df songs artists st1. unfold etl.process_song_data, etl.analysed.
  fold schema.
  destruct (resolves schema ["song_id"; "title"; "artist_id"; "year"; "duration"]);
    [|done].
  unfold etl.written. rewrite write_parquet_overwrite. cbn zeta.
  destruct (resolves schema _); [|done].
  by rewrite write_parquet_overwrite.
Qed.

Lemma etl_process_log_data_spec spark input_data output_data fs st :
  let schema := log_schema (log_objects fs (input_data +:+ "log_data/*.json")) in
  let catalog_schema :=
    song_schema (song_objects fs (input_data +:+ "song_data/*/*/*/*.json")) in
  let df := filter_NextSong
              (read_log_json (mount fs st) (input_data +:+ "log_data/*.json")) in
  let song_df := read_song_json (mount fs st) (input_data +:+ "song_data/*/*/*/*.json") in
  let users := {| path := output_data +:+ "users_tables/"; mode := overwrite;
                  partitionBy := []; data := users_rows (users_query df) |} in
  let time := {| path := output_data +:+ "time_tables/"; mode := overwrite;
                 partitionBy := []; data := time_rows (time_query spark df) |} in
  let songplays := {| path := output_data +:+ "songplays_tables/"; mode := overwrite;
                      partitionBy := [];
                      data := songplays_rows (songplays_query spark df song_df) |} in
  let st1 := put users {| partition_columns := [];
                          contents := users_rows (users_query df) |} (mount fs st) in
  let st2 := put time {| partition_columns := [];
                         contents := time_rows (time_query spark df) |} st1 in
  etl.process_log_data spark input_data output_data fs st =
    if resolves schema ["page"] then
      if resolves schema ["userId"; "firstName"; "lastName"; "gender"; "level"] then
        if resolves schema ["ts"] then
          if resolves schema ["ts"; "userId"; "level"; "sessionId"; "userAgent";
                              "song"; "artist"]
             && resolves catalog_schema ["song_id"; "artist_id"; "artist_location";
                                         "title"; "artist_name"] then
            returned (put songplays
                        {| partition_columns := [];
                           contents := songplays_rows (songplays_query spark df song_df) |}
                        st2)
          else raised st2
        else raised st1
      else raised (mount fs st)
    else raised (mount fs st).
Proof.
  intros schema catalog_schema df song_df users time songplays st1 st2.
  unfold etl.process_log_data, etl.analysed. fold schema catalog_schema.
  destruct (resolves schema ["page"]); [|done].
  destruct (resolves schema ["userId"; "firstName"; "lastName"; "gender"; "level"]);
    [|done].
  unfold etl.written. rewrite write_parquet_overwrite. cbn zeta.
  destruct (resolves schema ["ts"]); [|done].
  rewrite write_parquet_overwrite. cbn zeta.
  destruct (_ && _); [|done].
  by rewrite write_parquet_overwrite.
Qed.

Lemma etl_main_spec spark local_data fs st :
  etl.main spark local_data fs st =
    match etl.process_song_data spark (locations local_data).1
            (locations local_data).2 fs st with
    | returned st1 =>
        etl.process_log_data spark (locations local_data).1
          (locations local_data).2 fs st1
    | raised st1 => raised st1
    end.
Proof. unfold etl.main. by destruct (locations local_data). Qed.

(** ** The script and the transforms on relations *)

(** When every column that the queries name resolves, the script on files
    does what the transforms do on the relations read from the files. *)
Lemma etl_process_song_data_returns spark input_data output_data fs st :
  resolves (song_schema (song_objects fs (input_data +:+ "song_data/*/*/*/*.json")))
           song_columns = true →
  ∃ st', etl.process_song_data spark input_data output_data fs st = returned st'
         ∧ process_song_data spark input_data output_data (mount fs st) = Some st'.
Proof.
  intros Hres. rewrite etl_process_song_data_spec.
  rewrite !(resolves_subseteq _ song_columns) by (done || names_in).
  eexists. split; [done|].
  unfold process_song_data. rewrite write_parquet_overwrite. simpl.
  by rewrite write_parquet_overwrite.
Qed.

Lemma etl_process_log_data_returns spark input_data output_data fs st :
  resolves (log_schema (log_objects fs (input_data +:+ "log_data/*.json")))
           log_columns = true →
  resolves (song_schema (song_objects fs (input_data +:+ "song_data/*/*/*/*.json")))
           ["song_id"; "artist_id"; "artist_location"; "title"; "artist_name"] = true →
  ∃ st', etl.process_log_data spark input_data output_data fs st = returned st'
         ∧ process_log_data spark input_data output_data (mount fs st) = Some st'.
Proof.
  intros Hlog Hsongs. rewrite etl_process_log_data_spec.
  rewrite !(resolves_subseteq _ log_columns) by (done || names_in).
  rewrite Hsongs. simpl.
  eexists. split; [done|].
  unfold process_log_data. rewrite write_parquet_overwrite. simpl.
  rewrite write_parquet_overwrite. simpl.
  by rewrite write_parquet_overwrite.
Qed.

Lemma etl_main_returns spark local_data fs st :
  let input_data := (locations local_data).1 in
  resolves (song_schema (song_objects fs (input_data +:+ "song_data/*/*/*/*.json")))
           song_columns = true →
  resolves (log_schema (log_objects fs (input_data +:+ "log_data/*.json")))
           log_columns = true →
  ∃ st', etl.main spark local_data fs st = returned st'
         ∧ main spark local_data (mount fs st) = Some st'.
Proof.
  intros input_data Hsongs Hlog. rewrite etl_main_spec. unfold main.
  subst input_data. destruct (locations local_data) as [input_data output_data].
  simpl in *.
  destruct (etl_process_song_data_returns spark input_data output_data fs st Hsongs)
    as (st1 & -> & Hrun1).
  rewrite Hrun1. simpl.
  destruct (process_song_data_spec spark input_data output_data (mount fs st))
    as (st1' & Hrun1' & Hs & Hl & _).
  assert (st1' = st1) as -> by congruence.
  assert (mount fs st1 = st1) as Hmount.
  { unfold mount. destruct st1 as [sf lf pq wl]. simpl in *. by rewrite Hs, Hl. }
  destruct (etl_process_log_data_returns spark input_data output_data fs st1 Hlog)
    as (st2 & -> & Hrun2).
  { by apply (resolves_subseteq _ song_columns); [names_in|]. }
  exists st2. by rewrite Hmount in Hrun2.
Qed.

Lemma etl_main_returned spark local_data fs st st' :
  let input_data := (locations local_data).1 in
  etl.main spark local_data fs st = returned st' →
  resolves (song_schema (song_objects fs (input_data +:+ "song_data/*/*/*/*.json")))
           song_columns = true
  ∧ resolves (log_schema (log_objects fs (input_data +:+ "log_data/*.json")))
             log_columns = true.
Proof.
  intros input_data. rewrite etl_main_spec. fold input_data.
  rewrite etl_process_song_data_spec.
  destruct (resolves _ ["song_id"; "title"; "artist_id"; "year"; "duration"])
    eqn:H1; [|done].
  destruct (resolves _ ["artist_id"; "artist_name"; "artist_location";
                        "artist_latitude"; "artist_longitude"]) eqn:H2; [|done].
  rewrite etl_process_log_data_spec.
  destruct (resolves _ ["page"]) eqn:H3; [|done].
  destruct (resolves _ ["userId"; "firstName"; "lastName"; "gender"; "level"])
    eqn:H4; [|done].
  destruct (resolves _ ["ts"]) eqn:H5; [|done].
  destruct (resolves _ ["ts"; "userId"; "level"; "sessionId"; "userAgent";
                        "song"; "artist"]) eqn:H6; [|done].
  intros _. rewrite resolves_spec in H1, H2, H3, H4, H5, H6. split.
  - apply resolves_spec. intros name Hin. unfold song_columns in Hin.
    repeat (apply elem_of_cons in Hin as [->|Hin];
            [first [apply H1; name_listed | apply H2; name_listed]|]).
    by apply elem_of_nil in Hin.
  - apply resolves_spec. intros name Hin. unfold log_columns in Hin.
    repeat (apply elem_of_cons in Hin as [->|Hin];
            [first [apply H3; name_listed | apply H4; name_listed
                   | apply H5; name_listed | apply H6; name_listed]|]).
    by apply elem_of_nil in Hin.
Qed.

(** Every way in which [main] can end leaves the parquet paths outside its
    five directories, and the input, as they were. *)
Ltac by_cases_of_resolution :=
  repeat match goal with
         | |- context [if ?b then _ else _] => destruct b
         end.

Lemma etl_main_frame spark local_data fs st p :
  p ∉ output_tables (locations local_data).2 →
  parquet (storage_of (etl.main spark local_data fs st)) !! p = parquet st !! p.
Proof.
  intros Hp. unfold output_tables in Hp.
  rewrite etl_main_spec, etl_process_song_data_spec.
  destruct (resolves _ _); [|done].
  destruct (resolves _ _);
    [rewrite etl_process_log_data_spec; by_cases_of_resolution|];
    simpl; rewrite ?lookup_insert_ne; try done;
    intros <-; apply Hp; name_listed.
Qed.

Lemma etl_main_input spark local_data fs st :
  song_files (storage_of (etl.main spark local_data fs st)) = song_files (mount fs st)
  ∧ log_files (storage_of (etl.main spark local_data fs st)) = log_files (mount fs st).
Proof.
  rewrite etl_main_spec, etl_process_song_data_spec.
  destruct (resolves _ _); [|done].
  destruct (resolves _ _); [|done].
  rewrite etl_process_log_data_spec. by by_cases_of_resolution.
Qed.

(** ** The example scenario, from its files *)

(** The schema of the single catalog object holds every column exactly
    when the object has an [artist_location] key. *)
Lemma catalog_S1_object_schema (location : field string) :
  resolves (song_schema [catalog_S1_object location]) song_columns
  = has_key location.
Proof. by destruct location. Qed.

Lemma event_7_object_schema :
  resolves (log_schema [event_7_object]) log_columns = true.
Proof. reflexivity. Qed.

(** C6, as stated, fails.  The catalog record of the claim has no
    [artist_location] key, so the relation read from it has no such
    column: the songs table is written, with its one row, and the artists
    query then raises.  [main] ends there, and the artists, users, time and
    fact directories are never created. *)
Lemma C6_counterexample_record_without_artist_location :
  ∃ st',
    etl.main session_utc (PyBool true)
      (local_files [catalog_S1_object absent] [event_7_object]) empty_storage
    = raised st'
    ∧ table_at st' "sparkify_data_lake/songs_tables/" = Some (songs_rows
        [ {| songs_tables.song_id := Some "S1"; songs_tables.title := Some "Song A";
             songs_tables.artist_id := Some "E1"; songs_tables.year := Some 2000;
             songs_tables.duration := Some (of_long 200) |} ])
    ∧ table_at st' "sparkify_data_lake/artists_tables/" = None
    ∧ table_at st' "sparkify_data_lake/users_tables/" = None
    ∧ table_at st' "sparkify_data_lake/time_tables/" = None
    ∧ table_at st' "sparkify_data_lake/songplays_tables/" = None.
Proof.
  rewrite etl_main_spec, etl_process_song_data_spec.
  change (locations (PyBool true)) with ("data/", "sparkify_data_lake/").
  eexists. split; [reflexivity|].
  split; [apply table_at_put_eq|].
  split_and!; by rewrite table_at_put_ne.
Qed.

(** C6, amended.  When the single catalog object does carry an
    [artist_location] key, be it with [null], and the single event object
    is the one of the scenario, [main] returns and leaves exactly one row
    in each of the five tables: the song S1, the artist E1 with the
    location of the object, the user 7, the time row of 2018-11-05 17:46:40
    UTC (1541440000 seconds after the epoch), and one fact row that links
    user 7 to song S1. *)
Theorem C6_one_row_in_each_table_given_a_location_key
    spark local_data fs st (location : field string) :
  let input_data := (locations local_data).1 in
  let output_data := (locations local_data).2 in
  location ≠ absent →
  song_objects fs (input_data +:+ "song_data/*/*/*/*.json")
  = [catalog_S1_object location] →
  log_objects fs (input_data +:+ "log_data/*.json") = [event_7_object] →
  ∃ st' id,
    etl.main spark local_data fs st = returned st'
    ∧ table_at st' (output_data +:+ "songs_tables/") = Some (songs_rows
        [ {| songs_tables.song_id := Some "S1"; songs_tables.title := Some "Song A";
             songs_tables.artist_id := Some "E1"; songs_tables.year := Some 2000;
             songs_tables.duration := Some (of_long 200) |} ])
    ∧ table_at st' (output_data +:+ "artists_tables/") = Some (artists_rows
        [ {| artists_tables.artist_id := Some "E1";
             artists_tables.artist_name := Some "Band A";
             artists_tables.artist_location := column_value location;
             artists_tables.artist_latitude := Some (of_long 1);
             artists_tables.artist_longitude := Some (of_long 1) |} ])
    ∧ table_at st' (output_data +:+ "users_tables/") = Some (users_rows
        [ {| users_tables.userId := Some "7"; users_tables.firstName := Some "Jo";
             users_tables.lastName := Some "Do"; users_tables.gender := Some "F";
             users_tables.level := Some "free" |} ])
    ∧ table_at st' (output_data +:+ "time_tables/") = Some (time_rows
        [ select_time (time_zone spark) (Some 1541440000000000) ])
    ∧ (time_zone spark 1541440000000000 = 0 →
       select_time (time_zone spark) (Some 1541440000000000)
       = {| time_tables.start_time := Some 1541440000000000;
            time_tables.hour := Some 17; time_tables.day := Some 2;
            time_tables.week := Some 45; time_tables.month := Some 11;
            time_tables.year := Some 2018; time_tables.weekday := Some 2 |})
    ∧ table_at st' (output_data +:+ "songplays_tables/") = Some (songplays_rows
        [ {| songplays_tables.songplay_id := id;
             songplays_tables.start_time := Some 1541440000000000;
             songplays_tables.userId := Some "7";
             songplays_tables.level := Some "free";
             songplays_tables.song_id := Some "S1";
             songplays_tables.artist_id := Some "E1";
             songplays_tables.sessionId := Some 1;
             songplays_tables.artist_location := column_value location;
             songplays_tables.userAgent := Some "UA" |} ]).
Proof.
  intros input_data output_data Hkey Hsongs Hlog.
  destruct (etl_main_returns spark local_data fs st) as (st' & Hrun & Hmain).
  { fold input_data. rewrite Hsongs, catalog_S1_object_schema. by destruct location. }
  { fold input_data. by rewrite Hlog. }
  destruct (example_tables spark local_data (mount fs st) location)
    as (st'' & id & Hmain' & Hs & Ha & Hu & Ht & Hf).
  { unfold read_song_json. simpl. fold input_data. by rewrite Hsongs. }
  { unfold read_log_json. simpl. fold input_data. by rewrite Hlog. }
  assert (st'' = st') as -> by congruence.
  exists st', id.
  split_and!; [done|exact Hs|exact Ha|exact Hu|exact Ht| |exact Hf].
  apply time_row_of_event_7.
Qed.

Lemma C6_one_row_in_each_table_given_a_location_key_witness :
  ∃ st' id,
    etl.main session_utc (PyBool true)
      (local_files [catalog_S1_object null] [event_7_object]) empty_storage
    = returned st'
    ∧ table_at st' "sparkify_data_lake/artists_tables/" = Some (artists_rows
        [ {| artists_tables.artist_id := Some "E1";
             artists_tables.artist_name := Some "Band A";
             artists_tables.artist_location := None;
             artists_tables.artist_latitude := Some (of_long 1);
             artists_tables.artist_longitude := Some (of_long 1) |} ])
    ∧ table_at st' "sparkify_data_lake/time_tables/" = Some (time_rows
        [ {| time_tables.start_time := Some 1541440000000000;
             time_tables.hour := Some 17; time_tables.day := Some 2;
             time_tables.week := Some 45; time_tables.month := Some 11;
             time_tables.year := Some 2018; time_tables.weekday := Some 2 |} ])
    ∧ table_at st' "sparkify_data_lake/songplays_tables/" = Some (songplays_rows
        [ {| songplays_tables.songplay_id := id;
             songplays_tables.start_time := Some 1541440000000000;
             songplays_tables.userId := Some "7";
             songplays_tables.level := Some "free";
             songplays_tables.song_id := Some "S1";
             songplays_tables.artist_id := Some "E1";
             songplays_tables.sessionId := Some 1;
             songplays_tables.artist_location := None;
             songplays_tables.userAgent := Some "UA" |} ]).
Proof.
  destruct (C6_one_row_in_each_table_given_a_location_key session_utc (PyBool true)
              (local_files [catalog_S1_object null] [event_7_object])
              empty_storage null)
    as (st' & id & Hrun & _ & Ha & _ & Ht & Hutc & Hf).
  - discriminate.
  - reflexivity.
  - reflexivity.
  - exists st', id. split; [exact Hrun|]. split; [exact Ha|]. split; [|exact Hf].
    rewrite <- Hutc; [exact Ht|reflexivity].
Defined.

(** * Further properties of the transforms *)

(** ** What a run reads and what it writes *)

Lemma process_song_data_tables spark input_data output_data st :
  let song_df := read_song_json st (input_data +:+ "song_data/*/*/*/*.json") in
  ∃ st', process_song_data spark input_data output_data st = Some st'
    ∧ table_at st' (output_data +:+ "songs_tables/")
      = Some (songs_rows (songs_query song_df))
    ∧ table_at st' (output_data +:+ "artists_tables/")
      = Some (artists_rows (artists_query song_df)).
Proof.
  intros song_df.
  destruct (process_song_data_spec spark input_data output_data st)
    as (st' & Hrun & _ & _ & _ & Hpq).
  exists st'. split; [done|]. unfold table_at. rewrite Hpq.
  split; by table_names.
Qed.

Lemma elem_of_songs_query (catalog : list song_json) r :
  r ∈ songs_query catalog ↔ ∃ c, r = select_songs c ∧ c ∈ catalog.
Proof. unfold songs_query. by rewrite elem_of_distinct, list_elem_of_fmap. Qed.

Lemma elem_of_artists_query (catalog : list song_json) r :
  r ∈ artists_query catalog ↔ ∃ c, r = select_artists c ∧ c ∈ catalog.
Proof. unfold artists_query. by rewrite elem_of_distinct, list_elem_of_fmap. Qed.

Lemma length_distinct {A} `{EqDecision A} (l : list A) :
  (length (engine.distinct l) ≤ length l)%nat.
Proof.
  unfold engine.distinct. induction l as [|x l IH]; simpl; [done|].
  destruct (decide_rel elem_of x l); simpl; lia.
Qed.

(** X1.  The songs and artists tables that [process_song_data] writes hold
    no row twice, and hold exactly the projections of the catalog records:
    every row is selected from a record and every record has its row.  Only
    whole rows are compared: two records with one [song_id] but different
    selected columns both keep their row, so [song_id] is not a key. *)
Theorem X1_song_dimensions_are_the_distinct_projections
    spark input_data output_data st :
  let catalog := read_song_json st (input_data +:+ "song_data/*/*/*/*.json") in
  ∃ st' songs artists,
    process_song_data spark input_data output_data st = Some st'
    ∧ table_at st' (output_data +:+ "songs_tables/") = Some (songs_rows songs)
    ∧ table_at st' (output_data +:+ "artists_tables/") = Some (artists_rows artists)
    ∧ NoDup songs ∧ NoDup artists
    ∧ (∀ r, r ∈ songs ↔ ∃ c, c ∈ catalog ∧ r = select_songs c)
    ∧ (∀ r, r ∈ artists ↔ ∃ c, c ∈ catalog ∧ r = select_artists c)
    ∧ (length songs ≤ length catalog)%nat
    ∧ (length artists ≤ length catalog)%nat
    ∧ (∀ c1 c2, c1 ∈ catalog → c2 ∈ catalog →
         song_id c1 = song_id c2 → select_songs c1 ≠ select_songs c2 →
         ∃ r1 r2, r1 ∈ songs ∧ r2 ∈ songs ∧ r1 ≠ r2
                  ∧ songs_tables.song_id r1 = songs_tables.song_id r2).
Proof.
  intros catalog.
  destruct (process_song_data_tables spark input_data output_data st)
    as (st' & Hrun & Hs & Ha).
  fold catalog in Hs, Ha.
  exists st', (songs_query catalog), (artists_query catalog).
  split_and!; [done|done|done|apply NoDup_distinct|apply NoDup_distinct| | | | |].
  - intros r. rewrite elem_of_songs_query. split; intros (c & ? & ?); by exists c.
  - intros r. rewrite elem_of_artists_query. split; intros (c & ? & ?); by exists c.
  - unfold songs_query. etrans; [apply length_distinct|]. by rewrite length_fmap.
  - unfold artists_query. etrans; [apply length_distinct|]. by rewrite length_fmap.
  - intros c1 c2 H1 H2 Hid Hne.
    exists (select_songs c1), (select_songs c2).
    split_and!; [| |done|done]; apply elem_of_songs_query; eauto.
Qed.

Lemma main_spec spark local_data st :
  let input_data := (locations local_data).1 in
  let output_data := (locations local_data).2 in
  let song_df := read_song_json st (input_data +:+ "song_data/*/*/*/*.json") in
  let df := filter_NextSong (read_log_json st (input_data +:+ "log_data/*.json")) in
  ∃ st', main spark local_data st = Some st'
    ∧ song_files st' = song_files st
    ∧ log_files st' = log_files st
    ∧ write_log st' = write_log st ++
        [ {| path := output_data +:+ "songs_tables/"; mode := overwrite;
             partitionBy := ["year"; "artist_id"];
             data := songs_rows (songs_query song_df) |};
          {| path := output_data +:+ "artists_tables/"; mode := overwrite;
             partitionBy := [];
             data := artists_rows (artists_query song_df) |};
          {| path := output_data +:+ "users_tables/"; mode := overwrite;
             partitionBy := [];
             data := users_rows (users_query df) |};
          {| path := output_data +:+ "time_tables/"; mode := overwrite;
             partitionBy := [];
             data := time_rows (time_query spark df) |};
          {| path := output_data +:+ "songplays_tables/"; mode := overwrite;
             partitionBy := [];
             data := songplays_rows (songplays_query spark df song_df) |} ]
    ∧ parquet st' =
        <[output_data +:+ "songplays_tables/" :=
            {| partition_columns := [];
               contents := songplays_rows (songplays_query spark df song_df) |}]>
        (<[output_data +:+ "time_tables/" :=
            {| partition_columns := []; contents := time_rows (time_query spark df) |}]>
        (<[output_data +:+ "users_tables/" :=
            {| partition_columns := []; contents := users_rows (users_query df) |}]>
        (<[output_data +:+ "artists_tables/" :=
            {| partition_columns := [];
               contents := artists_rows (artists_query song_df) |}]>
        (<[output_data +:+ "songs_tables/" :=
            {| partition_columns := ["year"; "artist_id"];
               contents := songs_rows (songs_query song_df) |}]> (parquet st))))).
Proof.
  intros input_data output_data song_df df. unfold main.
  subst input_data output_data song_df df.
  destruct (locations local_data) as [input_data output_data]. simpl.
  destruct (process_song_data_spec spark input_data output_data st)
    as (st1 & -> & Hs1 & Hl1 & Hw1 & Hpq1). simpl.
  destruct (process_log_data_spec spark input_data output_data st1)
    as (st2 & -> & Hs2 & Hl2 & Hw2 & Hpq2).
  exists st2. unfold read_song_json, read_log_json in *.
  rewrite Hpq2, Hpq1, Hw2, Hw1, Hs1, Hl1, <- app_assoc.
  split_and!; try done; congruence.
Qed.

(** X2.  [main] returns exactly when the relation read from the song files
    has all nine catalog columns and the relation read from the log files
    all eleven event columns that the queries name; output that is already
    there cannot make it fail, because every write overwrites.  When it
    returns it has done what the transforms do on the relations read from
    the files, and a directory is at each of the five output paths.
    However it ends, the JSON input is as it was and no parquet path other
    than those five is touched. *)
Theorem X2_main_returns_exactly_when_every_column_resolves spark local_data fs st :
  let input_data := (locations local_data).1 in
  let output_data := (locations local_data).2 in
  let catalog_schema :=
    song_schema (song_objects fs (input_data +:+ "song_data/*/*/*/*.json")) in
  let event_schema := log_schema (log_objects fs (input_data +:+ "log_data/*.json")) in
  ((∃ st', etl.main spark local_data fs st = returned st')
   ↔ resolves catalog_schema song_columns = true
     ∧ resolves event_schema log_columns = true)
  ∧ (∀ st', etl.main spark local_data fs st = returned st' →
       main spark local_data (mount fs st) = Some st'
       ∧ ∀ p, p ∈ output_tables output_data → is_Some (parquet st' !! p))
  ∧ (∀ p, p ∉ output_tables output_data →
       parquet (storage_of (etl.main spark local_data fs st)) !! p = parquet st !! p)
  ∧ song_files (storage_of (etl.main spark local_data fs st))
    = song_files (mount fs st)
  ∧ log_files (storage_of (etl.main spark local_data fs st))
    = log_files (mount fs st).
Proof.
  intros input_data output_data catalog_schema event_schema.
  split_and!.
  - split.
    + intros [st' Hrun]. by apply (etl_main_returned spark local_data fs st st').
    + intros [Hsongs Hlog].
      destruct (etl_main_returns spark local_data fs st Hsongs Hlog)
        as (st' & Hrun & _).
      by exists st'.
  - intros st' Hrun.
    destruct (etl_main_returned spark local_data fs st st' Hrun) as [Hsongs Hlog].
    destruct (etl_main_returns spark local_data fs st Hsongs Hlog)
      as (st'' & Hrun' & Hmain).
    assert (st'' = st') as -> by congruence.
    split; [done|].
    destruct (main_spec spark local_data (mount fs st))
      as (st'' & Hmain' & _ & _ & _ & Hpq).
    assert (st'' = st') as -> by congruence.
    fold output_data in Hpq.
    intros p Hp. rewrite Hpq. unfold output_tables in Hp.
    repeat (apply elem_of_cons in Hp as [->|Hp]); [..|by apply elem_of_nil in Hp];
      table_names; eauto.
  - intros p Hp. by apply etl_main_frame.
  - apply etl_main_input.
  - apply etl_main_input.
Qed.




(** ** Empty and missing input *)

Lemma numbered_nil {A} sizes :
  engine.monotonically_increasing_id (engine.partition_rows sizes (@nil A)) = [].
Proof.
  pose proof (snd_monotonically_increasing_id (engine.partition_rows sizes (@nil A)))
    as Hsnd.
  rewrite concat_partition_rows in Hsnd. by apply fmap_nil_inv in Hsnd.
Qed.

Lemma songplays_query_nil spark (log : list log_json) (songs : list song_json) :
  join log songs = [] → songplays_query spark log songs = [].
Proof. intros Hjoin. unfold songplays_query. by rewrite Hjoin, numbered_nil. Qed.

Lemma filter_NextSong_none (events : list log_json) :
  (∀ e, e ∈ events → page e ≠ Some "NextSong") → filter_NextSong events = [].
Proof.
  intros Hnone. destruct (filter_NextSong events) as [|e l] eqn:Hf; [done|].
  assert (e ∈ filter_NextSong events) as [Hpage He]%elem_of_filter_NextSong
    by (rewrite Hf; left).
  by destruct (Hnone e He).
Qed.

(** X6.  When the log files hold events, with every column that the
    queries name, but none of them is a NextSong event,
    [process_log_data] still makes its three writes: the users, time and
    fact directories are there afterwards and hold no row. *)
Theorem X6_no_NextSong_event_gives_three_empty_tables
    spark input_data output_data fs st :
  resolves (log_schema (log_objects fs (input_data +:+ "log_data/*.json")))
           log_columns = true →
  resolves (song_schema (song_objects fs (input_data +:+ "song_data/*/*/*/*.json")))
           ["song_id"; "artist_id"; "artist_location"; "title"; "artist_name"] = true →
  (∀ o, o ∈ log_objects fs (input_data +:+ "log_data/*.json") →
        log_object.page o ≠ value "NextSong") →
  ∃ st',
    etl.process_log_data spark input_data output_data fs st = returned st'
    ∧ table_at st' (output_data +:+ "users_tables/") = Some (users_rows [])
    ∧ table_at st' (output_data +:+ "time_tables/") = Some (time_rows [])
    ∧ table_at st' (output_data +:+ "songplays_tables/") = Some (songplays_rows []).
Proof.
  intros Hlog Hsongs Hnone.
  destruct (etl_process_log_data_returns spark input_data output_data fs st
              Hlog Hsongs) as (st' & Hrun & Hrel).
  destruct (process_log_data_tables spark input_data output_data (mount fs st))
    as (st'' & Hrel' & Hu & Ht & Hf).
  assert (st'' = st') as -> by congruence.
  assert (filter_NextSong
            (read_log_json (mount fs st) (input_data +:+ "log_data/*.json")) = [])
    as Hfilter.
  { apply filter_NextSong_none.
    intros e (o & -> & Ho)%list_elem_of_fmap Hpage.
    apply (Hnone o Ho). simpl in Hpage.
    destruct (log_object.page o); simpl in Hpage; congruence. }
  rewrite Hfilter in Hu, Ht, Hf.
  exists st'. split_and!; [done|done|done|].
  rewrite Hf. by rewrite songplays_query_nil.
Qed.

(** X7.  With no catalog record under the song pattern there is no column
    for the songs query to name: [main] ends in [process_song_data] with an
    exception, before any write, and the log files are never read. *)
Theorem X7_empty_catalog_stops_main_before_any_write spark local_data fs st :
  song_objects fs ((locations local_data).1 +:+ "song_data/*/*/*/*.json") = [] →
  etl.main spark local_data fs st = raised (mount fs st)
  ∧ parquet (mount fs st) = parquet st
  ∧ write_log (mount fs st) = write_log st.
Proof.
  intros Hempty. split; [|done].
  rewrite etl_main_spec, etl_process_song_data_spec. by rewrite Hempty.
Qed.

(** X16.  Nothing is rolled back.  When the catalog has all its columns
    and some event column that the queries name is missing (an empty log
    is one case), [main] ends with an exception in [process_log_data], and
    the songs and artists tables of this run are in storage all the same;
    the fact directory is as it was before the run. *)
Theorem X16_a_failed_log_transform_keeps_the_song_tables spark local_data fs st :
  let input_data := (locations local_data).1 in
  let output_data := (locations local_data).2 in
  let catalog := song_row <$> song_objects fs (input_data +:+ "song_data/*/*/*/*.json") in
  resolves (song_schema (song_objects fs (input_data +:+ "song_data/*/*/*/*.json")))
           song_columns = true →
  resolves (log_schema (log_objects fs (input_data +:+ "log_data/*.json")))
           log_columns = false →
  ∃ st',
    etl.main spark local_data fs st = raised st'
    ∧ table_at st' (output_data +:+ "songs_tables/")
      = Some (songs_rows (songs_query catalog))
    ∧ table_at st' (output_data +:+ "artists_tables/")
      = Some (artists_rows (artists_query catalog))
    ∧ table_at st' (output_data +:+ "songplays_tables/")
      = table_at st (output_data +:+ "songplays_tables/").
Proof.
  intros input_data output_data catalog Hsongs Hlog.
  destruct (etl.main spark local_data fs st) as [st'|st'] eqn:Hrun.
  { apply etl_main_returned in Hrun as [_ Hlog']. fold input_data in Hlog'.
    congruence. }
  exists st'. split; [done|].
  rewrite etl_main_spec, etl_process_song_data_spec in Hrun.
  fold input_data output_data in Hrun.
  rewrite !(resolves_subseteq _ song_columns) in Hrun by (done || names_in).
  rewrite etl_process_log_data_spec in Hrun.
  unfold table_at.
  revert Hrun. by_cases_of_resolution; intros [= <-]; simpl;
    split_and!; by table_names.
Qed.

(** ** The join keys *)

Lemma join_on_keys (e : log_json) (c : song_json) :
  join_on e c → has_join_keys e ∧ has_catalog_keys c.
Proof.
  intros (t & a & He1 & Hc1 & He2 & Hc2)%join_on_spec.
  unfold has_join_keys, has_catalog_keys. rewrite He1, Hc1, He2, Hc2. eauto.
Qed.

Lemma filter_after_keep {A} (P Q : A → Prop)
    `{!∀ x, Decision (P x), !∀ x, Decision (Q x)} (l : list A) :
  (∀ x, x ∈ l → P x → Q x) → filter P (filter Q l) = filter P l.
Proof.
  induction l as [|x l IH]; intros HPQ; [done|].
  assert (filter P (filter Q l) = filter P l) as IH'
    by (apply IH; intros y Hy; apply HPQ; by right).
  rewrite (filter_cons Q).
  destruct (decide (Q x)) as [HQ|HQ].
  - rewrite !filter_cons. by rewrite IH'.
  - rewrite IH', filter_cons.
    destruct (decide (P x)) as [HP|HP]; [|done].
    destruct HQ. apply HPQ; [by left|done].
Qed.

Lemma join_restrict_songs (keep : song_json → Prop) `{!∀ c, Decision (keep c)}
    (log : list log_json) (songs : list song_json) :
  (∀ e c, e ∈ log → c ∈ songs → join_on e c → keep c) →
  join log (filter keep songs) = join log songs.
Proof.
  induction log as [|e log IH]; intros Hkeep; [done|].
  rewrite !join_cons, IH by (intros e' c He'; apply Hkeep; by right).
  do 2 f_equal. apply filter_after_keep.
  intros c Hc Hon. apply (Hkeep e c); [by left|done..].
Qed.

(** X8.  NULL never joins.  An event without a song or without an
    artist, and a catalog record without a title or without an artist name,
    take part in no fact row: deleting all of them from the input leaves the
    written fact table exactly as it was, even where a NULL song would face
    a NULL title. *)
Theorem X8_rows_without_join_keys_produce_no_fact_row
    spark input_data output_data st :
  ∃ r1 r2 fact,
    process_log_data spark input_data output_data st = Some r1
    ∧ process_log_data spark input_data output_data
        (restrict_songs has_catalog_keys (restrict_log has_join_keys st)) = Some r2
    ∧ table_at r1 (output_data +:+ "songplays_tables/") = Some (songplays_rows fact)
    ∧ table_at r2 (output_data +:+ "songplays_tables/") = Some (songplays_rows fact).
Proof.
  destruct (process_log_data_tables spark input_data output_data st)
    as (r1 & Hrun & _ & _ & Hf).
  destruct (process_log_data_tables spark input_data output_data
              (restrict_songs has_catalog_keys (restrict_log has_join_keys st)))
    as (r2 & Hrun2 & _ & _ & Hf2).
  eexists r1, r2, _. split_and!; [done|done|exact Hf|].
  rewrite Hf2. unfold read_log_json, read_song_json. simpl.
  do 2 f_equal. unfold songplays_query.
  rewrite filter_NextSong_restrict, join_restrict_songs, join_restrict; [done| |].
  - intros e c _ _ Hon. by apply join_on_keys in Hon as [? _].
  - intros e c _ _ Hon. by apply join_on_keys in Hon as [_ ?].
Qed.

(** X9.  The fact table is complete as well as sound.  Leaving the
    identifier aside, its rows are exactly the selected columns of the
    pairs of a NextSong event and a catalog record whose song and title are
    the same string and whose artist and artist name are the same string. *)
Theorem X9_fact_rows_are_exactly_the_matching_pairs
    spark input_data output_data st :
  let events := read_log_json st (input_data +:+ "log_data/*.json") in
  let catalog := read_song_json st (input_data +:+ "song_data/*/*/*/*.json") in
  ∃ r1 fact,
    process_log_data spark input_data output_data st = Some r1
    ∧ table_at r1 (output_data +:+ "songplays_tables/") = Some (songplays_rows fact)
    ∧ ∀ d, d ∈ without_id <$> fact ↔
        ∃ e c t a, e ∈ events ∧ page e = Some "NextSong" ∧ c ∈ catalog
                   ∧ song e = Some t ∧ title c = Some t
                   ∧ artist e = Some a ∧ artist_name c = Some a
                   ∧ d = fact_columns (e, c).
Proof.
  intros events catalog.
  destruct (process_log_data_tables spark input_data output_data st)
    as (r1 & Hrun & _ & _ & Hf).
  fold events catalog in Hf.
  eexists r1, _. split_and!; [done|exact Hf|].
  intros d. rewrite without_id_songplays_query_elem, list_elem_of_fmap. split.
  - intros ([e c] & -> & (He & Hc & Hon)%elem_of_join).
    apply elem_of_filter_NextSong in He as [Hpage He].
    apply join_on_spec in Hon as (t & a & ? & ? & ? & ?).
    exists e, c, t, a. by split_and!.
  - intros (e & c & t & a & He & Hpage & Hc & ? & ? & ? & ? & ->).
    exists (e, c). split; [done|]. apply elem_of_join.
    split_and!; [by apply elem_of_filter_NextSong|done|].
    apply join_on_spec. by exists t, a.
Qed.

(** ** The star schema *)

(** X10.  Every fact row written by [main] refers to rows that the same
    run wrote to the dimensions: a users row with its [userId] and [level],
    a songs row with its [song_id] and [artist_id], an artists row with its
    [artist_id] and [artist_location], and, when its [start_time] is not
    NULL, a time row with that [start_time]. *)
Theorem X10_fact_rows_refer_to_dimension_rows spark local_data st :
  let output_data := (locations local_data).2 in
  ∃ st' songs artists users time fact,
    main spark local_data st = Some st'
    ∧ table_at st' (output_data +:+ "songs_tables/") = Some (songs_rows songs)
    ∧ table_at st' (output_data +:+ "artists_tables/") = Some (artists_rows artists)
    ∧ table_at st' (output_data +:+ "users_tables/") = Some (users_rows users)
    ∧ table_at st' (output_data +:+ "time_tables/") = Some (time_rows time)
    ∧ table_at st' (output_data +:+ "songplays_tables/") = Some (songplays_rows fact)
    ∧ ∀ r, r ∈ fact →
        (∃ u, u ∈ users
              ∧ users_tables.userId u = songplays_tables.userId r
              ∧ users_tables.level u = songplays_tables.level r)
        ∧ (∃ s, s ∈ songs
                ∧ songs_tables.song_id s = songplays_tables.song_id r
                ∧ songs_tables.artist_id s = songplays_tables.artist_id r)
        ∧ (∃ a, a ∈ artists
                ∧ artists_tables.artist_id a = songplays_tables.artist_id r
                ∧ artists_tables.artist_location a
                  = songplays_tables.artist_location r)
        ∧ (songplays_tables.start_time r ≠ None →
           ∃ t, t ∈ time
                ∧ time_tables.start_time t = songplays_tables.start_time r).
Proof.
  intros output_data.
  destruct (main_tables spark local_data st)
    as (st' & Hrun & _ & _ & Hs & Ha & Hu & Ht & Hf).
  fold output_data in Hs, Ha, Hu, Ht, Hf.
  eexists st', _, _, _, _, _.
  split_and!; [done|exact Hs|exact Ha|exact Hu|exact Ht|exact Hf|].
  intros r (e & c & He & Hc & _ & ->)%elem_of_songplays_query. simpl.
  split_and!.
  - exists (select_users e). split; [|done].
    apply elem_of_users_query. by exists e.
  - exists (select_songs c). split; [|done].
    apply elem_of_songs_query. by exists c.
  - exists (select_artists c). split; [|done].
    apply elem_of_artists_query. by exists c.
  - intros Hnn. destruct (start_time_of e) as [t|] eqn:Ht'; [|done].
    exists (select_time (time_zone spark) (Some t)). split; [|done].
    apply elem_of_time_query. by exists e, t.
Qed.

(** X11.  The fact query has no WHERE on the timestamp.  A NextSong event
    without a [ts] that joins a catalog record gets a fact row whose
    [start_time] is NULL, and the time table, which drops NULL, has no row
    for it. *)
Theorem X11_fact_row_of_an_event_without_ts
    spark input_data output_data st e c :
  e ∈ read_log_json st (input_data +:+ "log_data/*.json") →
  c ∈ read_song_json st (input_data +:+ "song_data/*/*/*/*.json") →
  page e = Some "NextSong" → ts e = None → join_on e c →
  ∃ st' time fact r,
    process_log_data spark input_data output_data st = Some st'
    ∧ table_at st' (output_data +:+ "time_tables/") = Some (time_rows time)
    ∧ table_at st' (output_data +:+ "songplays_tables/") = Some (songplays_rows fact)
    ∧ r ∈ fact
    ∧ without_id r = fact_columns (e, c)
    ∧ songplays_tables.start_time r = None
    ∧ ∀ t, t ∈ time → time_tables.start_time t ≠ songplays_tables.start_time r.
Proof.
  intros He Hc Hpage Hts Hon.
  destruct (process_log_data_tables spark input_data output_data st)
    as (st' & Hrun & _ & Ht & Hf).
  assert (fact_columns (e, c)
          ∈ without_id <$> songplays_query spark
              (filter_NextSong (read_log_json st (input_data +:+ "log_data/*.json")))
              (read_song_json st (input_data +:+ "song_data/*/*/*/*.json")))
    as (r & Hcols & Hr)%list_elem_of_fmap.
  { apply without_id_songplays_query_elem, list_elem_of_fmap.
    exists (e, c). split; [done|]. apply elem_of_join.
    split_and!; [by apply elem_of_filter_NextSong|done|done]. }
  assert (songplays_tables.start_time r = None) as Hnull.
  { assert ((without_id r).1.1.1.1.1.1.1 = (fact_columns (e, c)).1.1.1.1.1.1.1)
      as Heq by (by rewrite Hcols).
    simpl in Heq. rewrite Heq. unfold start_time_of. by rewrite Hts. }
  eexists st', _, _, r. split_and!; [done|exact Ht|exact Hf|done|done|done|].
  intros t (e' & t' & _ & _ & ->)%elem_of_time_query. by rewrite Hnull.
Qed.

(** ** The users and time dimensions *)

(** X12.  The users table holds no row twice and holds exactly the
    selected columns of the NextSong events.  Rows are compared whole, so a
    user whose [level] differs between two events has two rows. *)
Theorem X12_users_table_is_the_distinct_projection
    spark input_data output_data st :
  let events := read_log_json st (input_data +:+ "log_data/*.json") in
  ∃ st' users,
    process_log_data spark input_data output_data st = Some st'
    ∧ table_at st' (output_data +:+ "users_tables/") = Some (users_rows users)
    ∧ NoDup users
    ∧ (∀ u, u ∈ users ↔
         ∃ e, e ∈ events ∧ page e = Some "NextSong" ∧ u = select_users e)
    ∧ (∀ e1 e2, e1 ∈ events → e2 ∈ events →
         page e1 = Some "NextSong" → page e2 = Some "NextSong" →
         userId e1 = userId e2 → level e1 ≠ level e2 →
         ∃ u1 u2, u1 ∈ users ∧ u2 ∈ users ∧ u1 ≠ u2
                  ∧ users_tables.userId u1 = users_tables.userId u2).
Proof.
  intros events.
  destruct (process_log_data_tables spark input_data output_data st)
    as (st' & Hrun & Hu & _ & _).
  fold events in Hu.
  assert (∀ u, u ∈ users_query (filter_NextSong events) ↔
            ∃ e, e ∈ events ∧ page e = Some "NextSong" ∧ u = select_users e)
    as Hmem.
  { intros u. rewrite elem_of_users_query. split.
    - intros (e & -> & [Hpage He]%elem_of_filter_NextSong). by exists e.
    - intros (e & He & Hpage & ->). exists e. split; [done|].
      by apply elem_of_filter_NextSong. }
  eexists st', _. split_and!; [done|exact Hu|apply NoDup_distinct|exact Hmem|].
  intros e1 e2 He1 He2 Hp1 Hp2 Hid Hlevel.
  exists (select_users e1), (select_users e2).
  split_and!; [apply Hmem; by exists e1|apply Hmem; by exists e2| |done].
  intros Heq. apply Hlevel.
  by apply (f_equal users_tables.level) in Heq.
Qed.

Lemma filter_NextSong_pages_eq (events : list log_json) :
  filter_NextSong events = filter (fun e => page e = Some "NextSong") events.
Proof.
  unfold filter_NextSong. apply list_filter_iff. intros e.
  pose proof (elem_of_filter_NextSong [e] e) as Hiff.
  unfold filter_NextSong in Hiff. rewrite filter_cons in Hiff.
  destruct (decide (is_NextSong e)) as [Hn|Hn].
  - split; [intros _|done]. apply Hiff. left.
  - split; [done|]. intros Hpage. exfalso.
    assert (e ∈ (@nil log_json)) as Hin%elem_of_nil; [|done].
    apply Hiff. split; [done|left].
Qed.

Lemma time_rows_at_time_query spark (log : list log_json) t :
  time_rows_at t (time_query spark log) = events_at t log.
Proof.
  unfold time_rows_at, events_at, time_query.
  induction log as [|e log IH]; [done|].
  rewrite fmap_cons, !filter_cons.
  destruct (start_time_of e) as [t'|] eqn:Ht'.
  - rewrite decide_True by eauto. rewrite fmap_cons, filter_cons. simpl.
    destruct (decide (Some t' = Some t)); simpl; by rewrite IH.
  - rewrite decide_False by (by intros [? ?]).
    rewrite decide_False by done. exact IH.
Qed.

Lemma length_time_query spark (log : list log_json) :
  length (time_query spark log)
  = length (filter (fun e => is_Some (start_time_of e)) log).
Proof.
  unfold time_query. rewrite length_fmap.
  induction log as [|e l IH]; [done|].
  rewrite fmap_cons, !filter_cons.
  destruct (decide (is_Some (start_time_of e))); simpl; by rewrite IH.
Qed.

(** X13.  The time table is not deduplicated.  Every NextSong event with
    a start time contributes its own row: for each instant, the table has
    as many rows with that [start_time] as there are NextSong events with
    it, so the table has as many rows as there are such events. *)
Theorem X13_one_time_row_per_event spark input_data output_data st :
  let events :=
    filter (fun e => page e = Some "NextSong")
           (read_log_json st (input_data +:+ "log_data/*.json")) in
  ∃ st' time,
    process_log_data spark input_data output_data st = Some st'
    ∧ table_at st' (output_data +:+ "time_tables/") = Some (time_rows time)
    ∧ (∀ t, time_rows_at t time = events_at t events)
    ∧ length time = length (filter (fun e => is_Some (start_time_of e)) events).
Proof.
  intros events.
  destruct (process_log_data_tables spark input_data output_data st)
    as (st' & Hrun & _ & Ht & _).
  rewrite filter_NextSong_pages_eq in Ht. fold events in Ht.
  eexists st', _. split_and!; [done|exact Ht| |].
  - intros t. apply time_rows_at_time_query.
  - apply length_time_query.
Qed.

(** ** The calendar columns *)

Ltac split_comparisons :=
  repeat match goal with
         | |- context [?a <? ?b] => destruct (Z.ltb_spec a b)
         | |- context [?a <=? ?b] => destruct (Z.leb_spec a b)
         end.

Lemma hour_of_range tz t : 0 <= sql.hour_of tz t <= 23.
Proof. unfold sql.hour_of. Z.div_mod_to_equations. lia. Qed.

Lemma dayofweek_of_range tz t : 1 <= sql.dayofweek_of tz t <= 7.
Proof. unfold sql.dayofweek_of. Z.div_mod_to_equations. lia. Qed.

Lemma civil_month_range days : 1 <= snd (sql.civil days) <= 12.
Proof.
  unfold sql.civil. cbv zeta. simpl snd.
  split_comparisons; Z.div_mod_to_equations; lia.
Qed.

(** A day lies in the year that [civil] gives it. *)
Lemma civil_year_spec days :
  sql.new_year (fst (sql.civil days)) <= days < sql.new_year (fst (sql.civil days) + 1).
Proof.
  unfold sql.civil, sql.new_year. cbv zeta. simpl fst.
  split_comparisons; Z.div_mod_to_equations; lia.
Qed.

Lemma year_length y : sql.new_year (y + 1) - sql.new_year y <= 366.
Proof. unfold sql.new_year. cbv zeta. Z.div_mod_to_equations. lia. Qed.

Lemma weekofyear_of_range tz t : 1 <= sql.weekofyear_of tz t <= 53.
Proof.
  unfold sql.weekofyear_of. cbv zeta.
  set (th := sql.local_days tz t - (sql.local_days tz t + 3) mod 7 + 3).
  pose proof (civil_year_spec th) as [Hlo Hhi].
  pose proof (year_length (fst (sql.civil th))).
  Z.div_mod_to_equations. lia.
Qed.

(** X14.  No column of a time row is NULL, and the calendar columns are
    within their ranges in any time zone: [hour] from 0 to 23, [day] and
    [weekday] from 1 to 7, [week] from 1 to 53 and [month] from 1 to 12. *)
Theorem X14_time_columns_are_within_range spark input_data output_data st :
  ∃ st' time,
    process_log_data spark input_data output_data st = Some st'
    ∧ table_at st' (output_data +:+ "time_tables/") = Some (time_rows time)
    ∧ ∀ r, r ∈ time →
        ∃ t h d w m y,
          time_tables.start_time r = Some t
          ∧ time_tables.hour r = Some h ∧ 0 <= h <= 23
          ∧ time_tables.day r = Some d ∧ 1 <= d <= 7
          ∧ time_tables.weekday r = Some d
          ∧ time_tables.week r = Some w ∧ 1 <= w <= 53
          ∧ time_tables.month r = Some m ∧ 1 <= m <= 12
          ∧ time_tables.year r = Some y.
Proof.
  destruct (process_log_data_tables spark input_data output_data st)
    as (st' & Hrun & _ & Ht & _).
  eexists st', _. split_and!; [done|exact Ht|].
  intros r (e & t & _ & _ & ->)%elem_of_time_query.
  exists t, (sql.hour_of (time_zone spark) t),
    (sql.dayofweek_of (time_zone spark) t),
    (sql.weekofyear_of (time_zone spark) t),
    (sql.month_of (time_zone spark) t), (sql.year_of (time_zone spark) t).
  split_and!; try done.
  - apply hour_of_range.
  - apply hour_of_range.
  - apply dayofweek_of_range.
  - apply dayofweek_of_range.
  - apply weekofyear_of_range.
  - apply weekofyear_of_range.
  - apply civil_month_range.
  - apply civil_month_range.
Qed.

(** ** The sign of the identifiers *)

Lemma row_id_small (p j : nat) :
  Z.of_nat p < 2 ^ 30 → Z.of_nat j < 2 ^ 33 →
  engine.row_id p j = Z.of_nat p * 2 ^ 33 + Z.of_nat j.
Proof.
  intros Hp Hj. unfold engine.row_id, engine.wrap_long.
  rewrite Z.shiftl_mul_pow2 by lia.
  change (2 ^ 30) with 1073741824 in *. change (2 ^ 33) with 8589934592 in *.
  change (2 ^ 63) with 9223372036854775808.
  change (2 ^ 64) with 18446744073709551616.
  Z.div_mod_to_equations. lia.
Qed.

Lemma numbered_from_non_negative {A} (p0 : nat) (parts : list (list A)) :
  Z.of_nat (p0 + length parts) <= 2 ^ 30 →
  Forall (fun rows => Z.of_nat (length rows) < 2 ^ 33) parts →
  Forall (fun id => 0 <= id)
    (fst <$> concat (imap (fun p => engine.number_partition (p0 + p)) parts)).
Proof.
  revert p0. induction parts as [|rows parts IH]; intros p0 Hp Hrows.
  - constructor.
  - apply Forall_cons in Hrows as [Hrow Hrows]. simpl in Hp.
    rewrite imap_cons. simpl. rewrite fmap_app, numbered_shift.
    rewrite fst_number_partition, Nat.add_0_r.
    apply Forall_app. split; [|apply (IH (S p0)); [lia|done]].
    apply Forall_fmap, Forall_forall. intros j Hj%elem_of_seq. simpl.
    rewrite row_id_small by lia. lia.
Qed.

(** X15.  Within 2^30 partitions of fewer than 2^33 rows each, no
    identifier of the fact table is negative and no two rows share one,
    in whatever order the rows are written. *)
Theorem X15_songplay_ids_are_non_negative_and_distinct
    spark input_data output_data st :
  let events :=
    filter_NextSong (read_log_json st (input_data +:+ "log_data/*.json")) in
  let catalog := read_song_json st (input_data +:+ "song_data/*/*/*/*.json") in
  within_positive_id_capacity
    (engine.partition_rows (join_partitions spark) (join events catalog)) →
  ∃ st' fact,
    process_log_data spark input_data output_data st = Some st'
    ∧ table_at st' (output_data +:+ "songplays_tables/") = Some (songplays_rows fact)
    ∧ Forall (fun id => 0 <= id) (songplays_tables.songplay_id <$> fact)
    ∧ NoDup (songplays_tables.songplay_id <$> fact).
Proof.
  intros events catalog [Hparts Hrows].
  destruct (process_log_data_tables spark input_data output_data st)
    as (st' & Hrun & _ & _ & Hf).
  fold events catalog in Hf.
  eexists st', _. split; [done|]. split; [exact Hf|].
  assert (within_id_capacity
            (engine.partition_rows (join_partitions spark) (join events catalog)))
    as Hcap
    by (split; [change (2 ^ 30) with 1073741824 in Hparts;
                change (2 ^ 31) with 2147483648; lia|done]).
  rewrite songplays_query_keeps_all by done.
  set (numbered := engine.monotonically_increasing_id _).
  assert (songplays_tables.songplay_id <$> (select_songplays <$> numbered)
          = fst <$> numbered) as ->.
  { rewrite <- list_fmap_compose. apply list_fmap_ext.
    intros _ r _. apply songplay_id_select. }
  split.
  - by apply (numbered_from_non_negative 0).
  - by apply NoDup_monotonically_increasing_id.
Qed.

(** ** The further properties at the example input *)

Lemma X6_no_NextSong_event_gives_three_empty_tables_witness :
  ∃ st',
    etl.process_log_data session_utc "data/" "sparkify_data_lake/"
      (local_files [catalog_S1_object null] [event_home_object]) empty_storage
    = returned st'
    ∧ table_at st' "sparkify_data_lake/users_tables/" = Some (users_rows [])
    ∧ table_at st' "sparkify_data_lake/time_tables/" = Some (time_rows [])
    ∧ table_at st' "sparkify_data_lake/songplays_tables/" = Some (songplays_rows []).
Proof.
  apply (X6_no_NextSong_event_gives_three_empty_tables session_utc "data/"
           "sparkify_data_lake/"
           (local_files [catalog_S1_object null] [event_home_object]) empty_storage).
  - reflexivity.
  - reflexivity.
  - intros o Ho. apply list_elem_of_singleton in Ho. subst o. discriminate.
Defined.

Lemma X7_empty_catalog_stops_main_before_any_write_witness :
  etl.main session_utc (PyBool true) (local_files [] [event_7_object]) empty_storage
  = raised (mount (local_files [] [event_7_object]) empty_storage)
  ∧ parquet (mount (local_files [] [event_7_object]) empty_storage) = ∅.
Proof.
  destruct (X7_empty_catalog_stops_main_before_any_write session_utc (PyBool true)
              (local_files [] [event_7_object]) empty_storage) as (Hrun & Hpq & _).
  - reflexivity.
  - split; [exact Hrun|exact Hpq].
Defined.

Lemma X11_fact_row_of_an_event_without_ts_witness :
  ∃ st' time fact r,
    process_log_data session_utc "data/" "sparkify_data_lake/"
      (local_storage [catalog_S1] [event_7_without_ts]) = Some st'
    ∧ table_at st' "sparkify_data_lake/time_tables/" = Some (time_rows time)
    ∧ table_at st' "sparkify_data_lake/songplays_tables/"
      = Some (songplays_rows fact)
    ∧ r ∈ fact
    ∧ songplays_tables.start_time r = None
    ∧ songplays_tables.song_id r = Some "S1".
Proof.
  destruct (X11_fact_row_of_an_event_without_ts session_utc "data/"
              "sparkify_data_lake/" (local_storage [catalog_S1] [event_7_without_ts])
              event_7_without_ts catalog_S1)
    as (st' & time & fact & r & Hrun & Ht & Hf & Hr & Hcols & Hnull & _).
  - vm_compute. left.
  - vm_compute. left.
  - reflexivity.
  - reflexivity.
  - vm_compute. exact I.
  - exists st', time, fact, r.
    repeat (split; [assumption|]).
    assert ((without_id r).1.1.1.1.2
            = (fact_columns (event_7_without_ts, catalog_S1)).1.1.1.1.2) as Heq
      by (rewrite Hcols; reflexivity).
    exact Heq.
Defined.

Lemma X15_songplay_ids_are_non_negative_and_distinct_witness :
  ∃ st' fact,
    process_log_data session_utc_two_partitions "data/" "sparkify_data_lake/"
      (local_storage [catalog_S1] [event_7; event_7]) = Some st'
    ∧ table_at st' "sparkify_data_lake/songplays_tables/"
      = Some (songplays_rows fact)
    ∧ Forall (fun id => 0 <= id) (songplays_tables.songplay_id <$> fact)
    ∧ NoDup (songplays_tables.songplay_id <$> fact).
Proof.
  apply (X15_songplay_ids_are_non_negative_and_distinct session_utc_two_partitions
           "data/" "sparkify_data_lake/"
           (local_storage [catalog_S1] [event_7; event_7])).
  split; [vm_compute; discriminate|].
  repeat constructor; vm_compute; reflexivity.
Defined.

Lemma X16_a_failed_log_transform_keeps_the_song_tables_witness :
  ∃ st',
    etl.main session_utc (PyBool true)
      (local_files [catalog_S1_object null] []) empty_storage = raised st'
    ∧ table_at st' "sparkify_data_lake/songs_tables/" = Some (songs_rows
        [ {| songs_tables.song_id := Some "S1"; songs_tables.title := Some "Song A";
             songs_tables.artist_id := Some "E1"; songs_tables.year := Some 2000;
             songs_tables.duration := Some (of_long 200) |} ])
    ∧ table_at st' "sparkify_data_lake/songplays_tables/" = None.
Proof.
  destruct (X16_a_failed_log_transform_keeps_the_song_tables session_utc (PyBool true)
              (local_files [catalog_S1_object null] []) empty_storage)
    as (st' & Hrun & Hs & _ & Hf).
  - reflexivity.
  - reflexivity.
  - exists st'. split; [exact Hrun|]. split; [exact Hs|exact Hf].
Defined.
